(** * app-version-checker: the version comparator, the store-URL resolver
      and the decision engine, embedded from the TypeScript sources.

    Source files embedded here:
    - [core/version-compare.ts]   ([compareVersions], [isUpdateAvailable])
    - [core/version-formatter.ts] ([sortVersions], [getLatestVersion])
    - [core/stores.ts]            ([getIosStoreUrl], [getAndroidStoreUrl], [getStoreUrl])
    - [core/version-checker.ts]   (class [VersionChecker])
    - [providers/storage-provider.interface.ts] ([InMemoryStorageProvider])

    Conventions of the embedding.
    - A JavaScript string is its sequence of UTF-16 code units ([list N]);
      [str] injects a literal.
    - A JavaScript number is an IEEE double.  Every number that occurs in
      the embedded code is an integer, an infinity or NaN (the results of
      [parseInt], of [Date.now()], and their differences), so the type
      [number] has exactly these values; an integer that a double cannot
      hold is rounded to the nearest double, ties to even ([Number_of_Z]).
      The two zeros of IEEE arithmetic are identified: the embedded code
      only compares, subtracts and tests numbers for truthiness, and [-0]
      behaves as [+0] under all three.
      Timestamps and intervals are whole milliseconds.
    - An awaited provider call is a state transformer on the outside world
      that either resolves to a value or rejects with a thrown value.
      [console.error], which touches nothing the engine reads, is left
      out. *)

From Stdlib Require Import ZArith NArith Lia Ascii String Sorted.
From stdpp Require Import base option list.

Local Open Scope Z_scope.

(** ** JavaScript strings *)

Definition jsstring : Type := list N.

Definition str (s : string) : jsstring :=
  map Ascii.N_of_ascii (String.list_ascii_of_string s).

(** The code unit of the full stop, the separator of [split('.')]. *)
Definition dot : N := 46%N.

(** [s.split('.')]: the substrings between the separators; the empty
    string yields one empty substring. *)
Fixpoint split (s : jsstring) : list jsstring :=
  match s with
  | [] => [[]]
  | c :: r =>
      if N.eqb c dot then [] :: split r
      else match split r with
           | seg :: segs => (c :: seg) :: segs
           | [] => [[c]]
           end
  end.

(** [segs.join('.')]. *)
Fixpoint join (segs : list jsstring) : jsstring :=
  match segs with
  | [] => []
  | [seg] => seg
  | seg :: rest => seg ++ dot :: join rest
  end.

(** ** JavaScript numbers *)

Inductive number : Type :=
  | NaN
  | Num (z : Z)
  | PosInf
  | NegInf.

#[global] Instance number_eq_dec : EqDecision number.
Proof. solve_decision. Defined.

(** The Number value of a mathematical integer: exact below [2^53],
    otherwise rounded to 53 significant bits, ties to even, and to an
    infinity from [2^1024] on. *)
Definition Number_of_Z (z : Z) : number :=
  let m := Z.abs z in
  if m <? 2 ^ 53 then Num z
  else
    let sh := Z.log2 m - 52 in
    let q := Z.shiftr m sh in
    let r := m - Z.shiftl q sh in
    let half := 2 ^ (sh - 1) in
    let q' := if (half <? r) || ((r =? half) && Z.odd q) then q + 1 else q in
    let v := Z.shiftl q' sh in
    if 2 ^ 1024 <=? v then (if 0 <? z then PosInf else NegInf)
    else Num (Z.sgn z * v).

(** [x < y] on numbers; false as soon as an operand is NaN. *)
Definition num_lt (x y : number) : bool :=
  match x, y with
  | NaN, _ | _, NaN => false
  | Num a, Num b => a <? b
  | NegInf, NegInf => false
  | NegInf, _ => true
  | _, NegInf => false
  | PosInf, _ => false
  | _, PosInf => true
  end.

(** [x > y]. *)
Definition num_gt (x y : number) : bool := num_lt y x.

(** [x !== y] on numbers: NaN differs from everything, itself included. *)
Definition num_strict_neq (x y : number) : bool :=
  match x, y with
  | NaN, _ | _, NaN => true
  | _, _ => negb (bool_decide (x = y))
  end.

(** [x - y]. *)
Definition num_sub (x y : number) : number :=
  match x, y with
  | NaN, _ | _, NaN => NaN
  | Num a, Num b => Number_of_Z (a - b)
  | PosInf, PosInf | NegInf, NegInf => NaN
  | PosInf, _ | _, NegInf => PosInf
  | NegInf, _ | _, PosInf => NegInf
  end.

(** [x + y]. *)
Definition num_add (x y : number) : number :=
  match x, y with
  | NaN, _ | _, NaN => NaN
  | Num a, Num b => Number_of_Z (a + b)
  | PosInf, NegInf | NegInf, PosInf => NaN
  | PosInf, _ | _, PosInf => PosInf
  | NegInf, _ | _, NegInf => NegInf
  end.

(** ToBoolean on a number: zero and NaN are falsy. *)
Definition num_truthy (x : number) : bool :=
  match x with
  | NaN | Num 0 => false
  | _ => true
  end.

(** [v || 0] for [v : number | undefined]: [undefined], [NaN] and [0]
    are falsy.  Reading an array past its end gives [undefined]. *)
Definition orZero (v : option number) : number :=
  match v with
  | Some x => if num_truthy x then x else Num 0
  | None => Num 0
  end.

(** The sign of a number; NaN counts as zero, which is how
    [Array.prototype.sort] reads the result of its comparator. *)
Definition num_sgn (x : number) : Z :=
  match x with
  | NaN => 0
  | Num z => Z.sgn z
  | PosInf => 1
  | NegInf => -1
  end.

(** ToBoolean on a string: only the empty string is falsy. *)
Definition str_truthy (s : jsstring) : bool :=
  match s with [] => false | _ => true end.

(** ToBoolean on [string | null | undefined]. *)
Definition opt_str_truthy (o : option jsstring) : bool :=
  match o with Some s => str_truthy s | None => false end.

(** ** [parseInt(s, 10)] *)

(** The code units that [parseInt] skips in front of the numeral
    (WhiteSpace and LineTerminator of ECMA-262). *)
Definition isStrWhiteSpaceChar (c : N) : bool :=
  let c := Z.of_N c in
  ((9 <=? c) && (c <=? 13)) || (c =? 32) || (c =? 160) || (c =? 5760)
  || ((8192 <=? c) && (c <=? 8202)) || (c =? 8232) || (c =? 8233)
  || (c =? 8239) || (c =? 8287) || (c =? 12288) || (c =? 65279).

Definition isDigit (c : N) : bool := ((48 <=? c) && (c <=? 57))%N.

Definition digitValue (c : N) : Z := Z.of_N c - 48.

Fixpoint trimStart (s : jsstring) : jsstring :=
  match s with
  | c :: r => if isStrWhiteSpaceChar c then trimStart r else s
  | [] => []
  end.

(** The longest prefix of decimal digits. *)
Fixpoint digitPrefix (s : jsstring) : jsstring :=
  match s with
  | c :: r => if isDigit c then c :: digitPrefix r else []
  | [] => []
  end.

Definition decimalValue (ds : jsstring) : Z :=
  fold_left (fun acc c => 10 * acc + digitValue c) ds 0.

Definition parseInt (s : jsstring) : number :=
  let s1 := trimStart s in
  let '(sign, s2) :=
    match s1 with
    | c :: r =>
        if N.eqb c 45 then (-1, r)
        else if N.eqb c 43 then (1, r)
        else (1, s1)
    | [] => (1, s1)
    end in
  match digitPrefix s2 with
  | [] => NaN
  | ds => Number_of_Z (sign * decimalValue ds)
  end.

(** ** [Number.prototype.toString()] *)

(** The decimal digits of a non-negative integer, most significant
    first; [fuel] bounds their number. *)
Fixpoint digitsOf (fuel : nat) (z : Z) (acc : jsstring) : jsstring :=
  match fuel with
  | O => acc
  | S fuel' =>
      let acc' := Z.to_N (48 + z mod 10) :: acc in
      if z <? 10 then acc' else digitsOf fuel' (z / 10) acc'
  end.

Definition decimalDigits (z : Z) : jsstring :=
  digitsOf (S (Z.to_nat (Z.log2 z))) z [].

(** The pairs [(s, e)] with [s] of [k] digits and [s * 10^e] a decimal
    that reads back as the double [x]; [d] is the number of digits of
    [x].  ECMA-262 wants [k] as small as possible. *)
Definition shortestCandidates (x d k : Z) : list (Z * Z) :=
  List.filter
    (fun '(s, e) =>
       (0 <=? e) && (10 ^ (k - 1) <=? s) && (s <? 10 ^ k)
       && bool_decide (Number_of_Z (s * 10 ^ e) = Num x))
    (flat_map (fun e => [(x / 10 ^ e, e); (x / 10 ^ e + 1, e)])
              [d - k; d + 1 - k]).

(** Of two candidates the one closer to [x]; at equal distance the one
    with [s] even. *)
Definition closerTo (x : Z) (c1 c2 : Z * Z) : Z * Z :=
  let dist c := Z.abs (c.1 * 10 ^ c.2 - x) in
  if dist c2 <? dist c1 then c2
  else if (dist c2 =? dist c1) && Z.even c2.1 then c2
  else c1.

Fixpoint shortestFrom (x d : Z) (k : Z) (tries : nat) : option (Z * Z * Z) :=
  match tries with
  | O => None
  | S tries' =>
      match shortestCandidates x d k with
      | c :: cs => Some (foldl (closerTo x) c cs, k)
      | [] => shortestFrom x d (k + 1) tries'
      end
  end.

(** [Number::toString(x)] for a positive integer [x]: the digits of [s]
    and [n - k] zeros when [n <= 21], exponential notation above. *)
Definition positiveToString (x : Z) : jsstring :=
  let d := Z.of_nat (length (decimalDigits x)) in
  match shortestFrom x d 1 17 with
  | Some (s, e, k) =>
      let n := k + e in
      if n <=? 21 then decimalDigits s ++ replicate (Z.to_nat e) 48%N
      else
        match decimalDigits s with
        | first :: rest =>
            (if k =? 1 then [first] else first :: dot :: rest)
            ++ str "e+" ++ decimalDigits (n - 1)
        | [] => []
        end
  | None => decimalDigits x
  end.

(** [String(x)] and [x.toString()] on numbers. *)
Definition numberToString (x : number) : jsstring :=
  match x with
  | NaN => str "NaN"
  | PosInf => str "Infinity"
  | NegInf => str "-Infinity"
  | Num 0 => str "0"
  | Num (Zpos p) => positiveToString (Zpos p)
  | Num (Zneg p) => 45%N :: positiveToString (Zpos p)
  end.

(** [isNaN(x)] on a number. *)
Definition isNaNumber (x : number) : bool :=
  match x with NaN => true | _ => false end.

(** ** core/version-compare.ts *)

Module VersionCompare.

(** [while (parts.length < maxLength) parts.push(0)]. *)
Definition padZeros (maxLength : nat) (parts : list number) : list number :=
  parts ++ replicate (maxLength - length parts) (Num 0).

(** The comparison loop.  Both arrays have length [maxLength] when the
    loop starts, so walking the index from [0] to [maxLength] visits the
    two lists in lock step. *)
Fixpoint compareParts (parts1 parts2 : list number) : Z :=
  match parts1, parts2 with
  | x :: r1, y :: r2 =>
      if num_lt x y then -1
      else if num_gt x y then 1
      else compareParts r1 r2
  | _, _ => 0
  end.

Definition versionParts (v : jsstring) : list number :=
  map parseInt (split v).

Definition compareVersions (v1 v2 : jsstring) : Z :=
  let parts1 := versionParts v1 in
  let parts2 := versionParts v2 in
  let maxLength := Nat.max (length parts1) (length parts2) in
  compareParts (padZeros maxLength parts1) (padZeros maxLength parts2).

Definition isUpdateAvailable (currentVersion latestVersion : jsstring) : bool :=
  compareVersions currentVersion latestVersion <? 0.

(** The object [parseVersion] returns; [build] is [None] when the array
    has no fourth element ([undefined]). *)
Record ParsedVersion : Type := {
  major : number;
  minor : number;
  patch : number;
  build : option number;
}.

Definition parseVersion (version : jsstring) : ParsedVersion :=
  let parts := map parseInt (split version) in
  {| major := orZero (parts !! 0%nat);
     minor := orZero (parts !! 1%nat);
     patch := orZero (parts !! 2%nat);
     build := parts !! 3%nat |}.

(** [parts.join('.')] on an array of numbers. *)
Definition joinNumbers (parts : list number) : jsstring :=
  join (map numberToString parts).

Definition formatVersion (major minor patch : number) (build : option number)
    : jsstring :=
  let parts := [major; minor; patch] in
  let parts :=
    match build with
    | Some b => parts ++ [b]
    | None => parts
    end in
  joinNumbers parts.

Definition getMajorVersion (version : jsstring) : number :=
  major (parseVersion version).

Definition getMinorVersion (version : jsstring) : number :=
  minor (parseVersion version).

Definition getPatchVersion (version : jsstring) : number :=
  patch (parseVersion version).

(** [/^\d+\.\d+\.\d+(\.\d+)?$/.test(version)]: three or four segments
    between the full stops, each a non-empty run of the digits [0-9]. *)
Definition isValidVersion (version : jsstring) : bool :=
  let segments := split version in
  ((length segments =? 3)%nat || (length segments =? 4)%nat)
  && forallb (fun seg => str_truthy seg && forallb isDigit seg) segments.

Inductive DiffType : Type :=
  | diff_major | diff_minor | diff_patch | diff_build | diff_none.

Record VersionDiff : Type := {
  type : DiffType;
  fromVersion : jsstring;
  toVersion : jsstring;
}.

Definition getVersionDiff (v1 v2 : jsstring) : VersionDiff :=
  let comparison := compareVersions v1 v2 in
  if comparison =? 0
  then {| type := diff_none; fromVersion := v1; toVersion := v2 |}
  else
    let parsed1 := parseVersion v1 in
    let parsed2 := parseVersion v2 in
    let type :=
      if num_strict_neq (major parsed1) (major parsed2) then diff_major
      else if num_strict_neq (minor parsed1) (minor parsed2) then diff_minor
      else if num_strict_neq (patch parsed1) (patch parsed2) then diff_patch
      else diff_build in
    {| type := type;
       fromVersion := if comparison <? 0 then v1 else v2;
       toVersion := if comparison <? 0 then v2 else v1 |}.

End VersionCompare.
Import VersionCompare.

(** ** core/version-formatter.ts *)

Module VersionFormatter.

(** The loop of the comparator handed to [sort]; [i] is the loop index
    and [todo] the number of iterations left ([maxLength - i]). *)
Fixpoint sortLoop (descending : bool) (aParts bParts : list number)
    (i todo : nat) : number :=
  match todo with
  | O => Num 0
  | S todo' =>
      let aPart := orZero (aParts !! i) in
      let bPart := orZero (bParts !! i) in
      if num_strict_neq aPart bPart
      then (if descending then num_sub bPart aPart else num_sub aPart bPart)
      else sortLoop descending aParts bParts (S i) todo'
  end.

(** The arrow function [(a, b) => ...] inside [sortVersions]. *)
Definition sortComparator (descending : bool) (a b : jsstring) : number :=
  let aParts := map parseInt (split a) in
  let bParts := map parseInt (split b) in
  let maxLength := Nat.max (length aParts) (length bParts) in
  sortLoop descending aParts bParts 0 maxLength.

(** [Array.prototype.sort(comparefn)].  ECMA-262 fixes the result for a
    consistent comparator: the stable arrangement in which [x] stays in
    front of [y] unless [comparefn(x, y) > 0].  Insertion from the right
    computes that arrangement. *)
Section ArraySort.
Context {A : Type} (comparefn : A -> A -> number).

Fixpoint sortInsert (x : A) (sorted : list A) : list A :=
  match sorted with
  | [] => [x]
  | y :: rest =>
      if 0 <? num_sgn (comparefn x y) then y :: sortInsert x rest
      else x :: sorted
  end.

Definition arraySort (l : list A) : list A := foldr sortInsert [] l.
End ArraySort.

Definition sortVersions (versions : list jsstring) (descending : bool)
    : list jsstring :=
  arraySort (sortComparator descending) versions.

Definition getLatestVersion (versions : list jsstring) : option jsstring :=
  match versions with
  | [] => None
  | _ => head (sortVersions versions true)
  end.

(** [buildNumber?: string | number]; [None] is [undefined] (or [null]). *)
Definition formatVersionWithBuild (platformVersion : jsstring)
    (buildNumber : option (jsstring + number)) : jsstring :=
  match buildNumber with
  | Some (inl []) => platformVersion
  | Some (inl b) => platformVersion ++ dot :: b
  | Some (inr n) => platformVersion ++ dot :: numberToString n
  | None => platformVersion
  end.

Definition extractBuildNumber (version : jsstring) : option jsstring :=
  let parts := split version in
  if (3 <? length parts)%nat then parts !! 3%nat else None.

Definition extractBaseVersion (version : jsstring) : jsstring :=
  let parts := split version in
  join (take 3 parts).

(** [padToLength] is a number of segments: a non-negative integer (the
    default, and what [formatDisplayVersion] passes, is [3]). *)
Definition normalizeVersion (version : jsstring) (padToLength : nat)
    : jsstring :=
  let parts := split version in
  let numericParts :=
    List.filter (fun num => negb (isNaNumber num)) (map parseInt parts) in
  let numericParts :=
    numericParts ++ replicate (padToLength - length numericParts) (Num 0) in
  joinNumbers numericParts.

Definition formatDisplayVersion (version : jsstring) (includePrefix : bool)
    : jsstring :=
  let normalized := normalizeVersion version 3 in
  if includePrefix then str "v" ++ normalized else normalized.

End VersionFormatter.

(** ** core/types.ts and core/stores.ts *)

Inductive Platform : Type := ios | android | web.

#[global] Instance Platform_eq_dec : EqDecision Platform.
Proof. solve_decision. Defined.

(** An absent optional field is [None]. *)
Record AppStoreConfig : Type := {
  iosAppStoreId : option jsstring;
  androidPackageName : option jsstring;
  iosStoreUrl : option jsstring;
  androidStoreUrl : option jsstring;
}.

Definition getIosStoreUrl (appStoreId customUrl : option jsstring)
    : option jsstring :=
  if opt_str_truthy customUrl then customUrl
  else if negb (opt_str_truthy appStoreId) then None
  else Some (str "https://apps.apple.com/app/id" ++ default [] appStoreId).

Definition getAndroidStoreUrl (packageName customUrl : option jsstring)
    : option jsstring :=
  if opt_str_truthy customUrl then customUrl
  else if negb (opt_str_truthy packageName) then None
  else Some (str "https://play.google.com/store/apps/details?id="
             ++ default [] packageName).

Definition getStoreUrl (platform : Platform) (config : AppStoreConfig)
    : option jsstring :=
  match platform with
  | ios => getIosStoreUrl (iosAppStoreId config) (iosStoreUrl config)
  | android =>
      getAndroidStoreUrl (androidPackageName config) (androidStoreUrl config)
  | web => None
  end.

(** [/^\d{9,10}$/.test(appStoreId)]. *)
Definition isValidIosAppStoreId (appStoreId : jsstring) : bool :=
  forallb isDigit appStoreId
  && (9 <=? length appStoreId)%nat && (length appStoreId <=? 10)%nat.

(** [[a-zA-Z]]. *)
Definition isLetter (c : N) : bool :=
  (((65 <=? c) && (c <=? 90)) || ((97 <=? c) && (c <=? 122)))%N.

(** [[a-zA-Z0-9_]]. *)
Definition isWordChar (c : N) : bool :=
  isLetter c || isDigit c || N.eqb c 95.

(** A letter followed by any number of word characters. *)
Definition isIdentifier (seg : jsstring) : bool :=
  match seg with
  | c :: rest => isLetter c && forallb isWordChar rest
  | [] => false
  end.

(** The test of [isValidAndroidPackageName]: its regular expression
    accepts an identifier followed by one or more groups of a full stop
    and an identifier, and nothing else. *)
Definition isValidAndroidPackageName (packageName : jsstring) : bool :=
  let segments := split packageName in
  (2 <=? length segments)%nat && forallb isIdentifier segments.

(** What is left of [s] after the prefix [p], if [s] starts with it. *)
Fixpoint stripPrefix (p s : jsstring) : option jsstring :=
  match p, s with
  | [], _ => Some s
  | a :: p', b :: s' => if N.eqb a b then stripPrefix p' s' else None
  | _ :: _, [] => None
  end.

(** [url.match(/\/id(\d+)/)]: the first place where ["/id"] is followed
    by a digit; the group is the whole run of digits there. *)
Fixpoint matchIosId (url : jsstring) : option jsstring :=
  match url with
  | [] => None
  | _ :: rest =>
      match stripPrefix (str "/id") url with
      | Some after =>
          match digitPrefix after with
          | [] => matchIosId rest
          | digits => Some digits
          end
      | None => matchIosId rest
      end
  end.

(** The longest prefix without [&]. *)
Fixpoint untilAmpersand (s : jsstring) : jsstring :=
  match s with
  | c :: r => if N.eqb c 38 then [] else c :: untilAmpersand r
  | [] => []
  end.

(** [url.match(/[?&]id=([^&]+)/)]: the first [?] or [&] followed by
    ["id="] and at least one code unit other than [&]; the group runs
    up to the next [&] or the end. *)
Fixpoint matchAndroidId (url : jsstring) : option jsstring :=
  match url with
  | [] => None
  | c :: rest =>
      if N.eqb c 63 || N.eqb c 38
      then
        match stripPrefix (str "id=") rest with
        | Some after =>
            match untilAmpersand after with
            | [] => matchAndroidId rest
            | id => Some id
            end
        | None => matchAndroidId rest
        end
      else matchAndroidId rest
  end.

Definition extractAppIdFromUrl (url : jsstring) (platform : Platform)
    : option jsstring :=
  match platform with
  | ios => matchIosId url
  | android => matchAndroidId url
  | web => None
  end.

Definition getStoreName (platform : Platform) : jsstring :=
  match platform with
  | ios => str "App Store"
  | android => str "Google Play Store"
  | web => str "Web"
  end.

Record VersionInfo : Type := {
  currentVersion : jsstring;
  latestVersion : option jsstring;
  updateAvailable : bool;
  storeUrl : option jsstring;
  platform : Platform;
}.

Inductive SkipReason : Type :=
  | no_update | web_platform | remind_later | too_soon | error.

#[global] Instance SkipReason_eq_dec : EqDecision SkipReason.
Proof. solve_decision. Defined.

(** [skipReason] is an optional field: [None] when it is left out. *)
Record VersionCheckResult : Type := {
  shouldShowPrompt : bool;
  versionInfo : VersionInfo;
  skipReason : option SkipReason;
}.

(** ** Awaited calls *)

(** The provider methods the engine invokes, with their arguments; an
    evaluation records them in the order in which it makes them. *)
Inductive Call : Type :=
  | CallGetCurrentVersion
  | CallGetLatestVersion (platform : Platform)
  | CallGetAppStoreConfig
  | CallIsUpdateMandatory (currentVersion latestVersion : jsstring)
  | CallGetLastCheckTime
  | CallSetLastCheckTime (timestamp : number)
  | CallGetRemindLaterTime
  | CallSetRemindLaterTime (timestamp : number)
  | CallClearRemindLaterTime
  | CallIncrementDismissCount
  | CallGetLastShownVersion
  | CallSetLastShownVersion (version : jsstring)
  | CallClearAll.

(** The calls that write to the preference store. *)
Definition isStoreWrite (c : Call) : bool :=
  match c with
  | CallSetLastCheckTime _ | CallSetRemindLaterTime _
  | CallClearRemindLaterTime | CallIncrementDismissCount
  | CallSetLastShownVersion _ | CallClearAll => true
  | _ => false
  end.

Section Async.
Context {World Exn : Type}.

(** A method of a provider (or any host function): run on the world,
    it returns or throws, and leaves a new world. *)
Definition Op (A : Type) : Type := World -> (Exn + A) * World.

(** An [async] method of the engine: as [Op], and it reports the
    provider calls it made. *)
Definition Async (A : Type) : Type := World -> (Exn + A) * World * list Call.

Definition ret {A} (a : A) : Async A := fun w => (inr a, w, []).

Definition bind {A B} (m : Async A) (k : A -> Async B) : Async B :=
  fun w =>
    match m w with
    | (inl e, w1, calls1) => (inl e, w1, calls1)
    | (inr a, w1, calls1) =>
        match k a w1 with
        | (r, w2, calls2) => (r, w2, calls1 ++ calls2)
        end
    end.

(** [try { body } catch (e) { handler }]: what the body did to the
    world before it threw stays done. *)
Definition tryCatch {A} (body : Async A) (handler : Exn -> Async A)
    : Async A :=
  fun w =>
    match body w with
    | (inl e, w1, calls1) =>
        match handler e w1 with
        | (r, w2, calls2) => (r, w2, calls1 ++ calls2)
        end
    | (inr a, w1, calls1) => (inr a, w1, calls1)
    end.

(** [await provider.method(args)]. *)
Definition invoke {A} (c : Call) (method : Op A) : Async A :=
  fun w => match method w with (r, w1) => (r, w1, [c]) end.

(** A host function that is not a provider method. *)
Definition host {A} (f : Op A) : Async A :=
  fun w => match f w with (r, w1) => (r, w1, []) end.
End Async.

Notation "'await' x ':=' m 'in' k" := (bind m (fun x => k))
  (at level 10, x name, m at level 100, k at level 200,
   format "'[v' 'await'  x  ':='  m  'in' '/' k ']'").

(** ** providers/data-provider.interface.ts and
       providers/storage-provider.interface.ts *)

Module Providers.

(** The methods of the two interfaces that [VersionChecker] calls in
    the operations embedded below.  An optional method that the
    provider leaves out is [None]. *)
Record IVersionDataProvider {World Exn : Type} : Type := {
  getCurrentVersion : @Op World Exn jsstring;
  getLatestVersion : Platform -> @Op World Exn (option jsstring);
  getAppStoreConfig : @Op World Exn AppStoreConfig;
  isUpdateMandatory : option (jsstring -> jsstring -> @Op World Exn bool);
}.

Record IStorageProvider {World Exn : Type} : Type := {
  getLastCheckTime : @Op World Exn (option number);
  setLastCheckTime : number -> @Op World Exn unit;
  getRemindLaterTime : @Op World Exn (option number);
  setRemindLaterTime : number -> @Op World Exn unit;
  clearRemindLaterTime : @Op World Exn unit;
  incrementDismissCount : option (@Op World Exn unit);
  getLastShownVersion : option (@Op World Exn (option jsstring));
  setLastShownVersion : option (jsstring -> @Op World Exn unit);
  clearAll : option (@Op World Exn unit);
}.

Arguments IVersionDataProvider : clear implicits.
Arguments IStorageProvider : clear implicits.

(** *** [InMemoryStorageProvider]

    The private [Map] of the class holds at most four keys, each
    written by one setter only; a field is [None] while its key is
    absent from the map. *)
Record MemoryStorage : Type := {
  lastCheckTime : option number;
  remindLaterTime : option number;
  dismissCount : option number;
  lastShownVersion : option jsstring;
}.

Definition emptyStorage : MemoryStorage :=
  {| lastCheckTime := None; remindLaterTime := None;
     dismissCount := None; lastShownVersion := None |}.

(** [this.storage.get(key) || null] for a number. *)
Definition numberOrNull (v : option number) : option number :=
  match v with
  | Some n => if num_truthy n then Some n else None
  | None => None
  end.

(** [this.storage.get(key) || null] for a string. *)
Definition stringOrNull (v : option jsstring) : option jsstring :=
  if opt_str_truthy v then v else None.

Section InMemory.
(** The world is the map of the provider and whatever else there is. *)
Context {Rest Exn : Type}.

Definition reads {A} (f : MemoryStorage -> A)
    : @Op (MemoryStorage * Rest) Exn A :=
  fun w => (inr (f w.1), w).

Definition writes (f : MemoryStorage -> MemoryStorage)
    : @Op (MemoryStorage * Rest) Exn unit :=
  fun w => (inr tt, (f w.1, w.2)).

(** [getDismissCount]: [this.storage.get('dismissCount') || 0]. *)
Definition mem_getDismissCount (m : MemoryStorage) : number :=
  orZero (dismissCount m).

Definition InMemoryStorageProvider
    : IStorageProvider (MemoryStorage * Rest) Exn := {|
  getLastCheckTime := reads (fun m => numberOrNull (lastCheckTime m));
  setLastCheckTime timestamp := writes (fun m =>
    {| lastCheckTime := Some timestamp;
       remindLaterTime := remindLaterTime m;
       dismissCount := dismissCount m;
       lastShownVersion := lastShownVersion m |});
  getRemindLaterTime := reads (fun m => numberOrNull (remindLaterTime m));
  setRemindLaterTime timestamp := writes (fun m =>
    {| lastCheckTime := lastCheckTime m;
       remindLaterTime := Some timestamp;
       dismissCount := dismissCount m;
       lastShownVersion := lastShownVersion m |});
  clearRemindLaterTime := writes (fun m =>
    {| lastCheckTime := lastCheckTime m;
       remindLaterTime := None;
       dismissCount := dismissCount m;
       lastShownVersion := lastShownVersion m |});
  incrementDismissCount := Some (writes (fun m =>
    {| lastCheckTime := lastCheckTime m;
       remindLaterTime := remindLaterTime m;
       dismissCount := Some (num_add (mem_getDismissCount m) (Num 1));
       lastShownVersion := lastShownVersion m |}));
  getLastShownVersion :=
    Some (reads (fun m => stringOrNull (lastShownVersion m)));
  setLastShownVersion := Some (fun version => writes (fun m =>
    {| lastCheckTime := lastCheckTime m;
       remindLaterTime := remindLaterTime m;
       dismissCount := dismissCount m;
       lastShownVersion := Some version |}));
  clearAll := Some (writes (fun _ => emptyStorage));
|}.
End InMemory.

End Providers.

(** ** core/version-checker.ts *)

Module VersionChecker.
Import Providers.

(** [Required<VersionCheckOptions>], the options after the constructor
    has filled in the defaults. *)
Record Options {World Exn : Type} : Type := {
  minCheckInterval : number;
  remindLaterDuration : number;
  skipWebPlatform : bool;
  getPlatformOption : @Op World Exn Platform;
}.
Arguments Options : clear implicits.

(** [DEFAULT_CHECK_INTERVALS] of core/types.ts. *)
Definition MIN_CHECK_INTERVAL : number := Num (60 * 60 * 1000).
Definition REMIND_LATER_DURATION : number := Num (24 * 60 * 60 * 1000).

Section Engine.
Context {World Exn : Type}.
Context (dataProvider : IVersionDataProvider World Exn)
        (storageProvider : IStorageProvider World Exn)
        (options : Options World Exn).
(** [Date.now()]: reads the clock of the world, never throws. *)
Context (Date_now : World -> number * World).

Definition dateNow : @Async World Exn number :=
  fun w => match Date_now w with (t, w1) => (inr t, w1, []) end.

Definition getPlatform : @Async World Exn Platform :=
  host (getPlatformOption options).

Definition getVersionInfo : @Async World Exn VersionInfo :=
  await platform := getPlatform in
  await currentVersion :=
    invoke CallGetCurrentVersion (getCurrentVersion dataProvider) in
  await latestVersion :=
    invoke (CallGetLatestVersion platform)
           (getLatestVersion dataProvider platform) in
  await appStoreConfig :=
    invoke CallGetAppStoreConfig (getAppStoreConfig dataProvider) in
  let updateAvailable :=
    match latestVersion with
    | Some latest =>
        if str_truthy latest
        then VersionCompare.isUpdateAvailable currentVersion latest
        else false
    | None => false
    end in
  let storeUrl := getStoreUrl platform appStoreConfig in
  ret {| currentVersion := currentVersion;
         latestVersion := latestVersion;
         updateAvailable := updateAvailable;
         storeUrl := storeUrl;
         platform := platform |}.

Definition isUpdateAvailable : @Async World Exn bool :=
  await platform := getPlatform in
  if bool_decide (platform = web) && skipWebPlatform options
  then ret false
  else
    await versionInfo := getVersionInfo in
    ret (updateAvailable versionInfo).

(** The object literal of a return statement that declines to prompt. *)
Definition skipped (versionInfo : VersionInfo) (reason : SkipReason)
    : VersionCheckResult :=
  {| shouldShowPrompt := false;
     versionInfo := versionInfo;
     skipReason := Some reason |}.

(** [remindLaterTime && Date.now() < remindLaterTime]; the clock is
    read only when the left operand is truthy. *)
Definition inRemindLaterPeriod (remindLaterTime : option number)
    : @Async World Exn bool :=
  match remindLaterTime with
  | Some t =>
      if num_truthy t
      then await now := dateNow in ret (num_lt now t)
      else ret false
  | None => ret false
  end.

(** [lastCheckTime && Date.now() - lastCheckTime < minCheckInterval]. *)
Definition checkedTooRecently (lastCheckTime : option number)
    : @Async World Exn bool :=
  match lastCheckTime with
  | Some t =>
      if num_truthy t
      then
        await now := dateNow in
        ret (num_lt (num_sub now t) (minCheckInterval options))
      else ret false
  | None => ret false
  end.

(** The block guarded by [if (this.storageProvider.getLastShownVersion)]:
    [true] when it returns the [remind_later] result, [false] when
    control falls through to the statements after it. *)
Definition alreadyShown (versionInfo : VersionInfo)
    : @Async World Exn bool :=
  match getLastShownVersion storageProvider with
  | Some getLastShownVersion =>
      await lastShownVersion :=
        invoke CallGetLastShownVersion getLastShownVersion in
      if bool_decide (lastShownVersion = latestVersion versionInfo)
      then
        match isUpdateMandatory dataProvider with
        | Some isUpdateMandatory =>
            let latest := default [] (latestVersion versionInfo) in
            await isMandatory :=
              invoke (CallIsUpdateMandatory
                        (currentVersion versionInfo) latest)
                     (isUpdateMandatory
                        (currentVersion versionInfo) latest) in
            ret (negb isMandatory)
        | None => ret true
        end
      else ret false
  | None => ret false
  end.

(** The statements after the last skip test: the two writes. *)
Definition recordPrompt (versionInfo : VersionInfo)
    : @Async World Exn VersionCheckResult :=
  await now := dateNow in
  await _ :=
    invoke (CallSetLastCheckTime now)
           (setLastCheckTime storageProvider now) in
  await _ :=
    match setLastShownVersion storageProvider, latestVersion versionInfo with
    | Some setLastShownVersion, Some latest =>
        if str_truthy latest
        then invoke (CallSetLastShownVersion latest)
                    (setLastShownVersion latest)
        else ret tt
    | _, _ => ret tt
    end in
  ret {| shouldShowPrompt := true;
         versionInfo := versionInfo;
         skipReason := None |}.

(** The body of the [try] block. *)
Definition tryBlock : @Async World Exn VersionCheckResult :=
  await versionInfo := getVersionInfo in
  if negb (updateAvailable versionInfo)
  then ret (skipped versionInfo no_update)
  else
    await remindLaterTime :=
      invoke CallGetRemindLaterTime (getRemindLaterTime storageProvider) in
    await remind := inRemindLaterPeriod remindLaterTime in
    if remind then ret (skipped versionInfo remind_later)
    else
      await lastCheckTime :=
        invoke CallGetLastCheckTime (getLastCheckTime storageProvider) in
      await tooSoon := checkedTooRecently lastCheckTime in
      if tooSoon then ret (skipped versionInfo too_soon)
      else
        await shown := alreadyShown versionInfo in
        if shown then ret (skipped versionInfo remind_later)
        else recordPrompt versionInfo.

Definition shouldShowUpdatePrompt : @Async World Exn VersionCheckResult :=
  await platform := getPlatform in
  if bool_decide (platform = web) && skipWebPlatform options
  then
    await versionInfo := getVersionInfo in
    ret (skipped versionInfo web_platform)
  else
    tryCatch tryBlock
      (fun _ =>
         await versionInfo := getVersionInfo in
         ret (skipped versionInfo error)).

Definition setRemindMeLater : @Async World Exn unit :=
  await now := dateNow in
  let remindTime := num_add now (remindLaterDuration options) in
  await _ :=
    invoke (CallSetRemindLaterTime remindTime)
           (setRemindLaterTime storageProvider remindTime) in
  match incrementDismissCount storageProvider with
  | Some incrementDismissCount =>
      invoke CallIncrementDismissCount incrementDismissCount
  | None => ret tt
  end.

Definition clearRemindMeLater : @Async World Exn unit :=
  invoke CallClearRemindLaterTime (clearRemindLaterTime storageProvider).

Definition resetVersionCheckData : @Async World Exn unit :=
  await _ :=
    invoke CallClearRemindLaterTime
           (clearRemindLaterTime storageProvider) in
  await _ :=
    invoke (CallSetLastCheckTime (Num 0))
           (setLastCheckTime storageProvider (Num 0)) in
  match clearAll storageProvider with
  | Some clearAll => invoke CallClearAll clearAll
  | None => ret tt
  end.
End Engine.

Section Lifecycle.
Context {World Exn : Type}.
Context (dataProvider : IVersionDataProvider World Exn)
        (options : Options World Exn).
(** The optional [initialize] and [dispose] methods of the data
    provider and of the storage provider; [None] when left out.  They
    are not among the methods [Call] lists, so running them records
    no call. *)
Context (dataInitialize storageInitialize : option (@Op World Exn unit))
        (dataDispose storageDispose : option (@Op World Exn unit)).

(** [if (provider.method) { await provider.method(); }]. *)
Definition runIfPresent (method : option (@Op World Exn unit))
    : @Async World Exn unit :=
  match method with
  | Some m => host m
  | None => ret tt
  end.

(** [initialize()]; the argument is the field [this.initialized] at the
    call and the value resolved to is the field afterwards.  When a
    hook throws the field keeps its old value. *)
Definition initialize (initialized : bool) : @Async World Exn bool :=
  if initialized then ret initialized
  else
    await _ := runIfPresent dataInitialize in
    await _ := runIfPresent storageInitialize in
    ret true.

(** [dispose()], with the field [this.initialized] as for [initialize]. *)
Definition dispose (initialized : bool) : @Async World Exn bool :=
  await _ := runIfPresent dataDispose in
  await _ := runIfPresent storageDispose in
  ret false.

(** The method [isUpdateMandatory()] of the engine (the name alone
    is the method of the data provider). *)
Definition isUpdateMandatoryMethod : @Async World Exn bool :=
  match isUpdateMandatory dataProvider with
  | None => ret false
  | Some isUpdateMandatory =>
      await versionInfo := getVersionInfo dataProvider options in
      match latestVersion versionInfo with
      | Some (c :: latest) =>
          invoke (CallIsUpdateMandatory
                    (currentVersion versionInfo) (c :: latest))
                 (isUpdateMandatory (currentVersion versionInfo) (c :: latest))
      | _ => ret false
      end
  end.
End Lifecycle.

End VersionChecker.

(** ** Fixtures: a data source with fixed answers, one whose version
       fetch fails, and options with a fixed platform *)

Module Fixtures.
Import Providers VersionChecker.

Section Fixed.
Context {World Exn : Type}.

Definition resolves {A} (a : A) : @Op World Exn A := fun w => (inr a, w).
Definition rejects {A} (e : Exn) : @Op World Exn A := fun w => (inl e, w).

(** A data source that answers every call with the same values. *)
Definition fixedDataProvider (current : jsstring) (latest : option jsstring)
    (config : AppStoreConfig)
    (mandatory : option (jsstring -> jsstring -> bool))
    : IVersionDataProvider World Exn := {|
  getCurrentVersion := resolves current;
  getLatestVersion _ := resolves latest;
  getAppStoreConfig := resolves config;
  isUpdateMandatory :=
    match mandatory with
    | Some f => Some (fun c l => resolves (f c l))
    | None => None
    end;
|}.

(** A data source whose [getLatestVersion] rejects on every call. *)
Definition failingDataProvider (current : jsstring) (e : Exn)
    (config : AppStoreConfig) : IVersionDataProvider World Exn := {|
  getCurrentVersion := resolves current;
  getLatestVersion _ := rejects e;
  getAppStoreConfig := resolves config;
  isUpdateMandatory := None;
|}.

(** An in-memory store whose [getRemindLaterTime] rejects. *)
Definition failingStorageProvider {Rest : Type} (e : Exn)
    : IStorageProvider (MemoryStorage * Rest) Exn := {|
  getLastCheckTime := getLastCheckTime InMemoryStorageProvider;
  setLastCheckTime := setLastCheckTime InMemoryStorageProvider;
  getRemindLaterTime := fun w => (inl e, w);
  setRemindLaterTime := setRemindLaterTime InMemoryStorageProvider;
  clearRemindLaterTime := clearRemindLaterTime InMemoryStorageProvider;
  incrementDismissCount := incrementDismissCount InMemoryStorageProvider;
  getLastShownVersion := getLastShownVersion InMemoryStorageProvider;
  setLastShownVersion := setLastShownVersion InMemoryStorageProvider;
  clearAll := clearAll InMemoryStorageProvider;
|}.

Definition fixedOptions (platform : Platform) (skipWeb : bool)
    (minInterval remindDuration : number) : Options World Exn := {|
  minCheckInterval := minInterval;
  remindLaterDuration := remindDuration;
  skipWebPlatform := skipWeb;
  getPlatformOption := resolves platform;
|}.
End Fixed.

Definition noConfig : AppStoreConfig :=
  {| iosAppStoreId := None; androidPackageName := None;
     iosStoreUrl := None; androidStoreUrl := None |}.

(** [Date.now()] for a world made of the in-memory store and the
    state of a clock. *)
Definition clockBeside {Rest : Type} (clock : Rest -> number * Rest)
    (w : MemoryStorage * Rest) : number * (MemoryStorage * Rest) :=
  match clock w.2 with (t, c) => (t, (w.1, c)) end.

(** A clock that reads its state as the time in milliseconds and moves
    on by one millisecond. *)
Definition ticking (now : Z) : number * Z := (Number_of_Z now, now + 1).
End Fixtures.

(** * Vocabulary of the statements *)

(** ** Numbers and parts *)

(** [Number.isNaN(x)]. *)
Definition isNaN (x : number) : bool :=
  match x with NaN => true | _ => false end.

(** Parts none of which is NaN. *)
Definition noNaN (parts : list number) : Prop :=
  Forall (fun x => isNaN x = false) parts.

(** The segment at the head of a list of parts, zero once the list is
    exhausted. *)
Definition headOrZero (parts : list number) : number :=
  default (Num 0) (head parts).

(** [compareParts] on the padded arrays, without building them: [n]
    positions are compared, a missing part counting as zero. *)
Fixpoint compareUpTo (n : nat) (p q : list number) : Z :=
  match n with
  | O => 0
  | S n' =>
      if num_lt (headOrZero p) (headOrZero q) then -1
      else if num_gt (headOrZero p) (headOrZero q) then 1
      else compareUpTo n' (tail p) (tail q)
  end.

(** ** Strings and segments *)

(** A string without a full stop: what [split] yields as a segment. *)
Definition noDot (seg : jsstring) : Prop := dot ∉ seg.

(** The string followed by [n] segments [".0"]. *)
Definition appendZeroSegments (n : nat) (v : jsstring) : jsstring :=
  Nat.iter n (fun s => s ++ str ".0") v.

(** A string of dot-separated non-negative integers: every segment is a
    non-empty run of decimal digits. *)
Definition isDottedVersion (v : jsstring) : bool :=
  forallb (fun seg => str_truthy seg && forallb isDigit seg) (split v).

(** A segment is unparsable when [parseInt] makes NaN of it. *)
Definition unparsable (seg : jsstring) : bool := isNaN (parseInt seg).

(** The segment itself, or ["0"] in place of an unparsable one. *)
Definition zeroIfUnparsable (seg : jsstring) : jsstring :=
  if unparsable seg then str "0" else seg.

(** The string with every unparsable segment replaced by ["0"]. *)
Definition replaceUnparsable (v : jsstring) : jsstring :=
  join (map zeroIfUnparsable (split v)).

(** The two segment lists with both segments replaced by ["0"] at every
    position where either is unparsable; past the end of the shorter
    list the missing segment counts as the zero it is padded with. *)
Fixpoint neutralise (sa sb : list jsstring) : list jsstring * list jsstring :=
  match sa, sb with
  | x :: sa', y :: sb' =>
      let '(ra, rb) := neutralise sa' sb' in
      if unparsable x || unparsable y
      then (str "0" :: ra, str "0" :: rb)
      else (x :: ra, y :: rb)
  | _, [] => (map zeroIfUnparsable sa, [])
  | [], _ => ([], map zeroIfUnparsable sb)
  end.

(** [neutralise] on two version strings. *)
Definition neutraliseVersions (a b : jsstring) : jsstring * jsstring :=
  let '(ra, rb) := neutralise (split a) (split b) in (join ra, join rb).

(** No segment of the string is unparsable. *)
Definition allSegmentsParse (v : jsstring) : bool :=
  forallb (fun seg => negb (unparsable seg)) (split v).

(** ** The store-URL resolver as specified *)

(** The resolver as the specification words it: an override that is
    present wins, else an identifier that is present is made into a URL,
    else [null]; [web] has no store. *)
Definition resolveStoreUrl_spec (platform : Platform) (config : AppStoreConfig)
    : option jsstring :=
  match platform with
  | ios =>
      match iosStoreUrl config, iosAppStoreId config with
      | Some url, _ => Some url
      | None, Some id => Some (str "https://apps.apple.com/app/id" ++ id)
      | None, None => None
      end
  | android =>
      match androidStoreUrl config, androidPackageName config with
      | Some url, _ => Some url
      | None, Some name =>
          Some (str "https://play.google.com/store/apps/details?id=" ++ name)
      | None, None => None
      end
  | web => None
  end.

(** A field that is present and not the empty string. *)
Definition nonEmpty (field : option jsstring) : option jsstring :=
  match field with
  | Some (c :: s) => Some (c :: s)
  | _ => None
  end.

(** The configuration with its empty-string fields taken for absent. *)
Definition dropEmptyFields (config : AppStoreConfig) : AppStoreConfig :=
  {| iosAppStoreId := nonEmpty (iosAppStoreId config);
     androidPackageName := nonEmpty (androidPackageName config);
     iosStoreUrl := nonEmpty (iosStoreUrl config);
     androidStoreUrl := nonEmpty (androidStoreUrl config) |}.

(** ** Evaluations and the preference store *)

Import Providers.

(** The skip reasons of the throttling rules (all but [error]). *)
Definition isThrottleSkip (reason : option SkipReason) : bool :=
  match reason with
  | Some web_platform | Some no_update | Some remind_later | Some too_soon =>
      true
  | _ => false
  end.

(** No call in the list writes to the preference store. *)
Definition noStoreWrite (calls : list Call) : Prop :=
  Forall (fun c => isStoreWrite c = false) calls.

Section Frame.
Context {World Exn Prefs : Type}.
(** What the preference store holds, as a view of the world. *)
Context (prefs : World -> Prefs).

(** A provider method or host function that leaves the stored
    preferences as they are. *)
Definition preserves {A} (op : @Op World Exn A) : Prop :=
  forall w, prefs (op w).2 = prefs w.

(** All that the engine calls, except the writing methods of the
    store, leaves the stored preferences as they are. *)
Record ReadsPreserve
    (dataProvider : IVersionDataProvider World Exn)
    (storageProvider : IStorageProvider World Exn)
    (options : VersionChecker.Options World Exn)
    (Date_now : World -> number * World) : Prop := {
  preserves_getPlatform : preserves (VersionChecker.getPlatformOption options);
  preserves_getCurrentVersion : preserves (getCurrentVersion dataProvider);
  preserves_getLatestVersion :
    forall p, preserves (getLatestVersion dataProvider p);
  preserves_getAppStoreConfig : preserves (getAppStoreConfig dataProvider);
  preserves_isUpdateMandatory :
    forall f c l, isUpdateMandatory dataProvider = Some f -> preserves (f c l);
  preserves_getRemindLaterTime :
    preserves (getRemindLaterTime storageProvider);
  preserves_getLastCheckTime : preserves (getLastCheckTime storageProvider);
  preserves_getLastShownVersion :
    forall g, getLastShownVersion storageProvider = Some g -> preserves g;
  preserves_Date_now : forall w, prefs (Date_now w).2 = prefs w;
}.

(** An evaluation that, however it ends, has written nothing. *)
Definition quiet {A} (m : @Async World Exn A) : Prop :=
  forall w r w' calls,
    m w = (r, w', calls) -> prefs w' = prefs w /\ noStoreWrite calls.

(** An evaluation that has written nothing whenever it resolves to a
    throttling skip. *)
Definition quietOnSkip (m : @Async World Exn VersionCheckResult) : Prop :=
  forall w res w' calls,
    m w = (inr res, w', calls) -> isThrottleSkip (skipReason res) = true ->
    prefs w' = prefs w /\ noStoreWrite calls.
End Frame.

Section Outcome.
Context {World Exn : Type}.

(** An evaluation all of whose resolved results satisfy [P]. *)
Definition resolvesWith (P : VersionCheckResult -> Prop)
    (m : @Async World Exn VersionCheckResult) : Prop :=
  forall w res w' calls, m w = (inr res, w', calls) -> P res.

End Outcome.

(** A resolved result either prompts, without a skip reason, or
    declines with one. *)
Definition promptsOrSkips (res : VersionCheckResult) : Prop :=
  (shouldShowPrompt res = true /\ skipReason res = None)
  \/ (shouldShowPrompt res = false /\ skipReason res <> None).

(** ** Calls of an evaluation *)

(** A call of the mandatory-update hook passes a latest version that is
    not the empty string; other calls are not constrained. *)
Definition passesLatestVersion (c : Call) : Prop :=
  match c with
  | CallIsUpdateMandatory _ latest => latest <> []
  | _ => True
  end.

Section EveryCall.
Context {World Exn : Type}.

(** An evaluation all of whose calls satisfy [Q], however it ends. *)
Definition everyCall {A} (Q : Call -> Prop) (m : @Async World Exn A) : Prop :=
  forall w r w' calls, m w = (r, w', calls) -> Forall Q calls.
End EveryCall.

(** What a resolved result says about the update: a prompt and the
    throttles [remind_later] and [too_soon] come with an available
    update, [no_update] with none. *)
Definition reasonMatchesUpdate (res : VersionCheckResult) : Prop :=
  match skipReason res with
  | None => shouldShowPrompt res = true
            /\ updateAvailable (versionInfo res) = true
  | Some no_update => shouldShowPrompt res = false
                      /\ updateAvailable (versionInfo res) = false
  | Some remind_later | Some too_soon =>
      shouldShowPrompt res = false
      /\ updateAvailable (versionInfo res) = true
  | Some web_platform | Some error => shouldShowPrompt res = false
  end.

(** ** Numbers that print exactly *)

(** [Number.isSafeInteger(x)]: an integer of magnitude below [2 ^ 53]. *)
Definition isSafeInteger (x : number) : bool :=
  match x with
  | Num z => Z.abs z <? 2 ^ 53
  | _ => false
  end.

(** A safe integer that is not negative. *)
Definition isSafeNatural (x : number) : bool :=
  match x with
  | Num z => (0 <=? z) && (z <? 2 ^ 53)
  | _ => false
  end.

(** The parts of a version that [normalizeVersion] keeps: those that
    are numbers. *)
Definition numericParts (version : jsstring) : list number :=
  List.filter (fun num => negb (isNaNumber num)) (versionParts version).

(** * Properties *)

(** Evaluation of the engine on concrete providers, up to the
    comparisons that depend on the data. *)
Ltac evaluate :=
  cbv -[compareVersions Z.ltb getStoreUrl num_lt num_sub num_truthy].

(** ** Numbers *)

Lemma num_lt_irrefl x : num_lt x x = false.
Proof. destruct x; simpl; auto using Z.ltb_irrefl. Qed.

Lemma num_lt_asym x y : num_lt x y = true -> num_lt y x = false.
Proof. destruct x, y; simpl; try done. intros; lia. Qed.

Lemma num_lt_trans x y z :
  num_lt x y = true -> num_lt y z = true -> num_lt x z = true.
Proof. destruct x, y, z; simpl; try done. intros; lia. Qed.

(** Numbers other than NaN are totally ordered. *)
Lemma num_lt_total x y :
  isNaN x = false -> isNaN y = false ->
  num_lt x y = false -> num_lt y x = false -> x = y.
Proof.
  destruct x, y; simpl; try done.
  intros _ _ H1 H2. f_equal. lia.
Qed.

Lemma Number_of_Z_small z : Z.abs z < 2 ^ 53 -> Number_of_Z z = Num z.
Proof.
  intros H. unfold Number_of_Z.
  destruct (Z.ltb_spec (Z.abs z) (2 ^ 53)); [done | lia].
Qed.

Lemma Number_of_Z_not_NaN z : isNaN (Number_of_Z z) = false.
Proof.
  unfold Number_of_Z.
  repeat match goal with |- context [if ?b then _ else _] => destruct b end;
    reflexivity.
Qed.

(** Rounding keeps the sign. *)
Lemma Number_of_Z_sgn z : num_sgn (Number_of_Z z) = Z.sgn z.
Proof.
  unfold Number_of_Z.
  destruct (Z.ltb_spec (Z.abs z) (2 ^ 53)) as [|Hbig]; [done |].
  set (m := Z.abs z) in *.
  set (sh := Z.log2 m - 52).
  set (q := Z.shiftr m sh).
  assert (Hm : 0 < m) by (pose proof (Z.pow_pos_nonneg 2 53); lia).
  assert (Hlog : 53 <= Z.log2 m).
  { apply Z.log2_le_pow2; [lia|]. exact Hbig. }
  assert (Hsh : 0 <= sh) by (unfold sh; lia).
  assert (Hq : 0 < q).
  { unfold q. rewrite Z.shiftr_div_pow2 by lia.
    apply Z.div_str_pos. split; [apply Z.pow_pos_nonneg; lia|].
    transitivity (2 ^ Z.log2 m).
    - apply Z.pow_le_mono_r; unfold sh; lia.
    - apply Z.log2_spec; lia. }
  match goal with |- context [Z.shiftl ?q' sh] => set (q1 := q') end.
  assert (Hq1 : 0 < q1).
  { unfold q1. destruct (_ || _); lia. }
  assert (Hv : 0 < Z.shiftl q1 sh).
  { rewrite Z.shiftl_mul_pow2 by lia.
    apply Z.mul_pos_pos; [lia | apply Z.pow_pos_nonneg; lia]. }
  destruct (2 ^ 1024 <=? Z.shiftl q1 sh).
  - destruct (Z.ltb_spec 0 z); simpl; unfold m in Hm; lia.
  - simpl. unfold m in Hm.
    rewrite Z.sgn_mul, Z.sgn_sgn.
    rewrite (Z.sgn_pos (Z.shiftl q1 sh)) by lia. lia.
Qed.

(** On distinct numbers other than NaN, the sign of the difference
    tells which is smaller. *)
Lemma num_sub_sgn x y :
  isNaN x = false -> isNaN y = false -> x <> y ->
  num_sgn (num_sub x y) = if num_lt x y then -1 else 1.
Proof.
  destruct x as [|a| |], y as [|b| |]; simpl; try done.
  intros _ _ Hne. rewrite Number_of_Z_sgn.
  assert (a <> b) by congruence.
  destruct (Z.ltb_spec a b); lia.
Qed.

Lemma orZero_not_NaN v : isNaN (orZero v) = false.
Proof. destruct v as [[|[]| |]|]; reflexivity. Qed.

Lemma orZero_Some x : isNaN x = false -> orZero (Some x) = x.
Proof. destruct x as [|[]| |]; done. Qed.

Lemma num_strict_neq_spec x y :
  isNaN x = false -> isNaN y = false ->
  num_strict_neq x y = negb (bool_decide (x = y)).
Proof. destruct x, y; done. Qed.

(** ** The comparison loop, read position by position *)

Lemma padZeros_nil n : padZeros n [] = replicate n (Num 0).
Proof. unfold padZeros. simpl. by rewrite Nat.sub_0_r. Qed.

Lemma padZeros_cons n x p : padZeros (S n) (x :: p) = x :: padZeros n p.
Proof. reflexivity. Qed.

Lemma compareParts_padded n p q :
  (length p <= n)%nat -> (length q <= n)%nat ->
  compareParts (padZeros n p) (padZeros n q) = compareUpTo n p q.
Proof.
  revert p q. induction n as [|n IH]; intros p q Hp Hq.
  - destruct p, q; simpl in *; lia.
  - assert (Hpad : forall l, (length l <= S n)%nat ->
              padZeros (S n) l = headOrZero l :: padZeros n (tail l)).
    { intros [|z l] _; [by rewrite !padZeros_nil | reflexivity]. }
    rewrite (Hpad p Hp), (Hpad q Hq). simpl.
    destruct (num_lt _ _); [done|]. destruct (num_gt _ _); [done|].
    apply IH; [destruct p | destruct q]; simpl in *; lia.
Qed.

Lemma compareUpTo_nil n : compareUpTo n [] [] = 0.
Proof. induction n; simpl; auto. Qed.

(** Comparing further than both lists reach changes nothing. *)
Lemma compareUpTo_beyond n m p q :
  (length p <= n)%nat -> (length q <= n)%nat -> (n <= m)%nat ->
  compareUpTo m p q = compareUpTo n p q.
Proof.
  revert m p q. induction n as [|n IH]; intros m p q Hp Hq Hm.
  - destruct p, q; simpl in *; try lia. apply compareUpTo_nil.
  - destruct m as [|m]; [lia|]. simpl.
    destruct (num_lt _ _); [done|]. destruct (num_gt _ _); [done|].
    apply IH; [destruct p | destruct q |]; simpl in *; lia.
Qed.

Lemma compareVersions_upTo v1 v2 n :
  (length (versionParts v1) <= n)%nat ->
  (length (versionParts v2) <= n)%nat ->
  compareVersions v1 v2 = compareUpTo n (versionParts v1) (versionParts v2).
Proof.
  intros H1 H2. unfold compareVersions.
  rewrite compareParts_padded by lia.
  symmetry. apply compareUpTo_beyond; lia.
Qed.

Lemma compareUpTo_range n p q :
  compareUpTo n p q = -1 \/ compareUpTo n p q = 0 \/ compareUpTo n p q = 1.
Proof.
  revert p q. induction n as [|n IH]; intros; simpl; [auto|].
  destruct (num_lt _ _); [auto|]. destruct (num_gt _ _); auto.
Qed.

Lemma compareUpTo_antisym n p q : compareUpTo n p q = - compareUpTo n q p.
Proof.
  revert p q. induction n as [|n IH]; intros p q; simpl; [done|].
  unfold num_gt.
  destruct (num_lt (headOrZero p) (headOrZero q)) eqn:E1.
  - rewrite (num_lt_asym _ _ E1). reflexivity.
  - destruct (num_lt (headOrZero q) (headOrZero p)); [done | apply IH].
Qed.

Lemma compareUpTo_refl n p : compareUpTo n p p = 0.
Proof.
  revert p. induction n as [|n IH]; intros p; simpl; [done|].
  unfold num_gt. rewrite num_lt_irrefl. apply IH.
Qed.

(** A trailing zero part is the padding made explicit. *)
Lemma compareUpTo_snoc_zero n p q :
  compareUpTo n (p ++ [Num 0]) q = compareUpTo n p q.
Proof.
  revert p q. induction n as [|n IH]; intros p q; [done|].
  destruct p as [|x p]; [reflexivity|].
  cbn [compareUpTo app tail]. rewrite IH. reflexivity.
Qed.

Lemma compareVersions_range v1 v2 :
  compareVersions v1 v2 = -1 \/ compareVersions v1 v2 = 0
  \/ compareVersions v1 v2 = 1.
Proof.
  rewrite (compareVersions_upTo v1 v2 _ (Nat.le_max_l _ _) (Nat.le_max_r _ _)).
  apply compareUpTo_range.
Qed.

Lemma compareVersions_antisym v1 v2 :
  compareVersions v1 v2 = - compareVersions v2 v1.
Proof.
  rewrite (compareVersions_upTo v1 v2 _ (Nat.le_max_l _ _) (Nat.le_max_r _ _)).
  rewrite (compareVersions_upTo v2 v1 _ (Nat.le_max_r _ _) (Nat.le_max_l _ _)).
  apply compareUpTo_antisym.
Qed.

Lemma compareVersions_refl v : compareVersions v v = 0.
Proof.
  rewrite (compareVersions_upTo v v _ (Nat.le_refl _) (Nat.le_refl _)).
  apply compareUpTo_refl.
Qed.

(** ** [split] and [join] *)

Lemma split_not_nil s : split s <> [].
Proof.
  destruct s as [|c r]; simpl; [done|].
  destruct (N.eqb c dot); [done|]. destruct (split r); done.
Qed.

Lemma split_app_dot a b : split (a ++ dot :: b) = split a ++ split b.
Proof.
  induction a as [|c a IH]; simpl; [reflexivity|].
  destruct (N.eqb c dot); [by rewrite IH|].
  rewrite IH. pose proof (split_not_nil a).
  destruct (split a); done.
Qed.

Lemma split_noDot seg : noDot seg -> split seg = [seg].
Proof.
  unfold noDot. induction seg as [|c seg IH]; intros H; simpl; [done|].
  destruct (N.eqb_spec c dot) as [->|_].
  - exfalso. apply H. left.
  - rewrite IH; [done|]. intros ?. apply H. by right.
Qed.

Lemma split_segments_noDot s : Forall noDot (split s).
Proof.
  induction s as [|c s IH]; simpl.
  - repeat constructor. unfold noDot. apply not_elem_of_nil.
  - destruct (N.eqb_spec c dot) as [->|Hc].
    + constructor; [apply not_elem_of_nil | done].
    + destruct (split s) as [|seg segs]; inversion IH; subst.
      * repeat constructor. unfold noDot. rewrite elem_of_cons.
        intros [?|?%not_elem_of_nil]; done.
      * constructor; [|done]. unfold noDot in *. rewrite elem_of_cons.
        intros [?|?]; done.
Qed.

Lemma split_join segs :
  segs <> [] -> Forall noDot segs -> split (join segs) = segs.
Proof.
  induction segs as [|seg segs IH]; intros Hne Hall; [done|].
  inversion Hall as [|? ? Hseg Hrest]; subst.
  destruct segs as [|seg' segs].
  - simpl. by apply split_noDot.
  - change (join (seg :: seg' :: segs)) with (seg ++ dot :: join (seg' :: segs)).
    rewrite split_app_dot, IH, split_noDot; done.
Qed.

(** ** Appending [".0"] segments *)

Lemma versionParts_append_zero v :
  versionParts (v ++ str ".0") = versionParts v ++ [Num 0].
Proof.
  unfold versionParts.
  change (str ".0") with (dot :: str "0").
  rewrite split_app_dot, map_app. reflexivity.
Qed.

Lemma compareVersions_append_zero v1 v2 :
  compareVersions (v1 ++ str ".0") v2 = compareVersions v1 v2.
Proof.
  set (n := S (Nat.max (length (versionParts v1)) (length (versionParts v2)))).
  rewrite (compareVersions_upTo (v1 ++ str ".0") v2 n).
  - rewrite (compareVersions_upTo v1 v2 n) by lia.
    rewrite versionParts_append_zero. apply compareUpTo_snoc_zero.
  - rewrite versionParts_append_zero, length_app. simpl. lia.
  - lia.
Qed.

Lemma compareVersions_appendZeroSegments n v1 v2 :
  compareVersions (appendZeroSegments n v1) v2 = compareVersions v1 v2.
Proof.
  induction n as [|n IH]; simpl; [done|].
  by rewrite compareVersions_append_zero.
Qed.

(** C7: padding with zeros makes missing trailing segments count as
    zero: [compareVersions("1.0", "1.0.0")] is [0],
    [compareVersions("1.0.0", "1.0.0.1")] is negative, and appending any
    number of [".0"] segments to a version string, on either side of the
    comparison, leaves the result against every other string unchanged. *)
Theorem C7_trailing_zero_segments :
  compareVersions (str "1.0") (str "1.0.0") = 0
  /\ compareVersions (str "1.0.0") (str "1.0.0.1") < 0
  /\ forall (n : nat) (v other : jsstring),
       compareVersions (appendZeroSegments n v) other = compareVersions v other
       /\ compareVersions other (appendZeroSegments n v)
          = compareVersions other v.
Proof.
  split; [reflexivity|]. split; [reflexivity|].
  intros n v other. split.
  - apply compareVersions_appendZeroSegments.
  - rewrite (compareVersions_antisym other), (compareVersions_antisym other v).
    by rewrite compareVersions_appendZeroSegments.
Qed.

(** ** Antisymmetry and reflexivity on valid dotted versions *)

(** C6: on valid dotted version strings [compareVersions] is
    antisymmetric, [compareVersions(a,b) = -compareVersions(b,a)], and
    reflexive, [compareVersions(a,a) = 0]. *)
Theorem C6_antisymmetric_reflexive (a b : jsstring) :
  isDottedVersion a = true -> isDottedVersion b = true ->
  compareVersions a b = - compareVersions b a
  /\ compareVersions a a = 0.
Proof.
  intros _ _. split.
  - apply compareVersions_antisym.
  - apply compareVersions_refl.
Qed.

Lemma C6_antisymmetric_reflexive_witness :
  isDottedVersion (str "1.0.49") = true
  /\ isDottedVersion (str "1.1.0") = true
  /\ compareVersions (str "1.0.49") (str "1.1.0")
     = - compareVersions (str "1.1.0") (str "1.0.49")
  /\ compareVersions (str "1.0.49") (str "1.0.49") = 0.
Proof.
  split; [reflexivity|]. split; [reflexivity|].
  apply (C6_antisymmetric_reflexive (str "1.0.49") (str "1.1.0"));
    reflexivity.
Defined.

(** ** Malformed input *)

Lemma noDot_zero : noDot (str "0").
Proof. unfold noDot. by intros [?|?%not_elem_of_nil]%elem_of_cons. Qed.

Lemma zeroIfUnparsable_noDot seg : noDot seg -> noDot (zeroIfUnparsable seg).
Proof. unfold zeroIfUnparsable. destruct (unparsable seg); auto using noDot_zero. Qed.

Lemma neutralise_length sa sb :
  length (neutralise sa sb).1 = length sa
  /\ length (neutralise sa sb).2 = length sb.
Proof.
  revert sb. induction sa as [|x sa IH]; intros [|y sb]; simpl;
    rewrite ?length_map; try done.
  specialize (IH sb). destruct (neutralise sa sb) as [ra rb].
  destruct (_ || _); simpl in *; lia.
Qed.

Lemma neutralise_noDot sa sb :
  Forall noDot sa -> Forall noDot sb ->
  Forall noDot (neutralise sa sb).1 /\ Forall noDot (neutralise sa sb).2.
Proof.
  assert (Hmap : forall l, Forall noDot l -> Forall noDot (map zeroIfUnparsable l)).
  { intros l Hl. apply Forall_map. eapply Forall_impl; [exact Hl|].
    apply zeroIfUnparsable_noDot. }
  revert sb. induction sa as [|x sa IH]; intros [|y sb] Ha Hb.
  - split; constructor.
  - split; [constructor | by apply Hmap].
  - split; [by apply (Hmap (x :: sa)) | constructor].
  - inversion Ha; inversion Hb; subst. simpl.
    destruct (IH sb) as [IH1 IH2]; [done..|].
    destruct (neutralise sa sb) as [ra rb].
    destruct (_ || _); simpl in *; split; constructor; auto using noDot_zero.
Qed.

Lemma num_lt_NaN_l y : num_lt NaN y = false.
Proof. reflexivity. Qed.

Lemma num_lt_NaN_r x : num_lt x NaN = false.
Proof. by destruct x. Qed.

(** An unparsable segment against the zero padding. *)
Lemma compareUpTo_zeroIfUnparsable_l n sa :
  compareUpTo n (map parseInt (map zeroIfUnparsable sa)) []
  = compareUpTo n (map parseInt sa) [].
Proof.
  revert sa. induction n as [|n IH]; intros sa; [done|].
  destruct sa as [|x sa]; [done|].
  cbn [map compareUpTo tail]. rewrite IH.
  unfold zeroIfUnparsable, unparsable.
  change (headOrZero (?z :: _)) with z.
  destruct (parseInt x) eqn:E; simpl; rewrite ?E; reflexivity.
Qed.

Lemma compareUpTo_zeroIfUnparsable_r n sb :
  compareUpTo n [] (map parseInt (map zeroIfUnparsable sb))
  = compareUpTo n [] (map parseInt sb).
Proof.
  rewrite compareUpTo_antisym, compareUpTo_zeroIfUnparsable_l.
  by rewrite <- compareUpTo_antisym.
Qed.

Lemma compareUpTo_neutralise n sa sb :
  compareUpTo n (map parseInt (neutralise sa sb).1)
                (map parseInt (neutralise sa sb).2)
  = compareUpTo n (map parseInt sa) (map parseInt sb).
Proof.
  revert sa sb. induction n as [|n IH]; intros sa sb; [done|].
  destruct sa as [|x sa], sb as [|y sb];
    [done | apply compareUpTo_zeroIfUnparsable_r
          | apply (compareUpTo_zeroIfUnparsable_l (S n) (x :: sa)) |].
  specialize (IH sa sb). cbn [neutralise].
  destruct (neutralise sa sb) as [ra rb]. cbn [fst snd] in IH.
  unfold unparsable.
  destruct (isNaN (parseInt x)) eqn:Ex; [|destruct (isNaN (parseInt y)) eqn:Ey];
    cbn [orb fst snd map compareUpTo tail]; rewrite IH;
    change (headOrZero (?z :: _)) with z; unfold num_gt.
  - destruct (parseInt x); [|done..].
    by rewrite num_lt_NaN_r.
  - destruct (parseInt y); [|done..].
    rewrite num_lt_NaN_r. reflexivity.
  - reflexivity.
Qed.

Lemma versionParts_join segs :
  segs <> [] -> Forall noDot segs -> versionParts (join segs) = map parseInt segs.
Proof. intros. unfold versionParts. by rewrite split_join. Qed.

Lemma compareVersions_neutralise a b :
  compareVersions a b
  = compareVersions (neutraliseVersions a b).1 (neutraliseVersions a b).2.
Proof.
  unfold neutraliseVersions.
  destruct (neutralise_length (split a) (split b)) as [La Lb].
  destruct (neutralise_noDot (split a) (split b)) as [Da Db];
    [apply split_segments_noDot..|].
  pose proof (compareUpTo_neutralise
    (Nat.max (length (split a)) (length (split b))) (split a) (split b)) as Hc.
  destruct (neutralise (split a) (split b)) as [ra rb]. cbn [fst snd] in *.
  assert (ra <> []).
  { pose proof (split_not_nil a). destruct ra, (split a); done. }
  assert (rb <> []).
  { pose proof (split_not_nil b). destruct rb, (split b); done. }
  rewrite (compareVersions_upTo a b
    (Nat.max (length (split a)) (length (split b))));
    [|unfold versionParts; rewrite length_map; lia..].
  rewrite (compareVersions_upTo (join ra) (join rb)
    (Nat.max (length (split a)) (length (split b))));
    [|rewrite versionParts_join, length_map by done; lia..].
  rewrite !versionParts_join by done. by rewrite Hc.
Qed.

(** C4, as stated, fails: [compareVersions("a", "1")] is [0], while with
    the unparsable segment replaced by ["0"] the comparison gives [-1]. *)
Lemma C4_counterexample :
  compareVersions (str "a") (str "1")
  <> compareVersions (replaceUnparsable (str "a")) (replaceUnparsable (str "1")).
Proof. vm_compute. discriminate. Qed.

(** C4, amended: for every pair of strings [compareVersions] returns
    [-1], [0] or [1], and a position at which either string has an
    unparsable segment is ignored: the result equals [compareVersions]
    on the strings in which, at every such position, the segments of
    both strings are replaced by ["0"]. *)
Theorem C4_unparsable_positions_ignored (a b : jsstring) :
  (compareVersions a b = -1 \/ compareVersions a b = 0
   \/ compareVersions a b = 1)
  /\ compareVersions a b
     = compareVersions (neutraliseVersions a b).1 (neutraliseVersions a b).2.
Proof.
  split; [apply compareVersions_range | apply compareVersions_neutralise].
Qed.

(** ** Sorting and the latest of a list *)

Import VersionFormatter.

Lemma allSegmentsParse_noNaN v :
  allSegmentsParse v = true -> noNaN (versionParts v).
Proof.
  unfold allSegmentsParse, noNaN, versionParts, unparsable.
  rewrite forallb_forall, Forall_map, Forall_forall.
  intros H seg Hseg. apply negb_true_iff, H. by apply list_elem_of_In.
Qed.

Lemma noNaN_head p : noNaN p -> isNaN (headOrZero p) = false.
Proof. destruct 1; done. Qed.

Lemma noNaN_tail p : noNaN p -> noNaN (tail p).
Proof. destruct 1; [constructor | done]. Qed.

Lemma orZero_head p : noNaN p -> orZero (p !! 0%nat) = headOrZero p.
Proof. destruct 1; [done|]. by apply orZero_Some. Qed.

Lemma sortLoop_tail d p q i todo :
  sortLoop d p q (S i) todo = sortLoop d (tail p) (tail q) i todo.
Proof.
  revert i. induction todo as [|todo IH]; intros i; [done|].
  cbn [sortLoop]. rewrite !lookup_tail, IH. reflexivity.
Qed.

Lemma sortLoop_sgn n p q :
  noNaN p -> noNaN q ->
  num_sgn (sortLoop false p q 0 n) = compareUpTo n p q
  /\ num_sgn (sortLoop true p q 0 n) = compareUpTo n q p.
Proof.
  revert p q. induction n as [|n IH]; intros p q Hp Hq; [done|].
  cbn [sortLoop compareUpTo]. rewrite !sortLoop_tail.
  rewrite (orZero_head p Hp), (orZero_head q Hq).
  pose proof (noNaN_head p Hp) as Hx. pose proof (noNaN_head q Hq) as Hy.
  destruct (IH (tail p) (tail q)) as [IH1 IH2]; [by apply noNaN_tail..|].
  rewrite num_strict_neq_spec by done. unfold num_gt.
  generalize dependent (headOrZero p). generalize dependent (headOrZero q).
  intros y Hy x Hx.
  destruct (decide (x = y)) as [->|Hne].
  - rewrite bool_decide_eq_true_2 by done. simpl.
    by rewrite num_lt_irrefl.
  - rewrite bool_decide_eq_false_2 by done. simpl.
    rewrite !num_sub_sgn by done.
    destruct (num_lt x y) eqn:Exy, (num_lt y x) eqn:Eyx; try done.
    destruct Hne. by apply num_lt_total.
Qed.

Lemma sortComparator_sgn a b :
  allSegmentsParse a = true -> allSegmentsParse b = true ->
  num_sgn (sortComparator false a b) = compareVersions a b
  /\ num_sgn (sortComparator true a b) = compareVersions b a.
Proof.
  intros Ha%allSegmentsParse_noNaN Hb%allSegmentsParse_noNaN.
  unfold sortComparator.
  rewrite (compareVersions_upTo a b _ (Nat.le_max_l _ _) (Nat.le_max_r _ _)).
  rewrite (compareVersions_upTo b a _ (Nat.le_max_r _ _) (Nat.le_max_l _ _)).
  by apply sortLoop_sgn.
Qed.

Lemma compareUpTo_trans n p q r :
  noNaN p -> noNaN q -> noNaN r ->
  compareUpTo n p q <= 0 -> compareUpTo n q r <= 0 -> compareUpTo n p r <= 0.
Proof.
  revert p q r. induction n as [|n IH]; intros p q r Hp Hq Hr; [done|].
  cbn [compareUpTo]. unfold num_gt.
  pose proof (noNaN_head p Hp) as Hx. pose proof (noNaN_head q Hq) as Hy.
  pose proof (noNaN_head r Hr) as Hz.
  pose proof (IH (tail p) (tail q) (tail r) (noNaN_tail _ Hp)
                (noNaN_tail _ Hq) (noNaN_tail _ Hr)) as IH'.
  generalize dependent (headOrZero p). generalize dependent (headOrZero q).
  generalize dependent (headOrZero r). intros z Hz y Hy x Hx.
  destruct (num_lt x y) eqn:Exy.
  - intros _. destruct (num_lt y z) eqn:Eyz.
    + intros _. by rewrite (num_lt_trans _ _ _ Exy Eyz).
    + destruct (num_lt z y) eqn:Ezy; [lia|]. intros _.
      rewrite <- (num_lt_total y z) by done. by rewrite Exy.
  - destruct (num_lt y x) eqn:Eyx; [lia|].
    rewrite (num_lt_total x y) by done. clear Exy Eyx.
    destruct (num_lt y z); [done|]. destruct (num_lt z y); [lia|]. done.
Qed.

Lemma compareVersions_trans a b c :
  allSegmentsParse a = true -> allSegmentsParse b = true ->
  allSegmentsParse c = true ->
  compareVersions a b <= 0 -> compareVersions b c <= 0 ->
  compareVersions a c <= 0.
Proof.
  intros Ha%allSegmentsParse_noNaN Hb%allSegmentsParse_noNaN
         Hc%allSegmentsParse_noNaN.
  set (n := Nat.max (length (versionParts a))
              (Nat.max (length (versionParts b)) (length (versionParts c)))).
  rewrite (compareVersions_upTo a b n), (compareVersions_upTo b c n),
    (compareVersions_upTo a c n) by lia.
  by apply compareUpTo_trans.
Qed.

Lemma sortInsert_perm {A} (f : A -> A -> number) x l :
  sortInsert f x l ≡ₚ x :: l.
Proof.
  induction l as [|y l IH]; simpl; [done|].
  destruct (0 <? _); [|done]. rewrite IH. apply perm_swap.
Qed.

Lemma arraySort_perm {A} (f : A -> A -> number) l : arraySort f l ≡ₚ l.
Proof.
  induction l as [|x l IH]; simpl; [done|].
  rewrite sortInsert_perm. by constructor.
Qed.

(** The head of the descending sort is a maximum of the list. *)
Lemma sortVersions_head_max versions :
  Forall (fun v => allSegmentsParse v = true) versions ->
  versions <> [] ->
  exists v, head (sortVersions versions true) = Some v
            /\ v ∈ versions
            /\ forall u, u ∈ versions -> compareVersions u v <= 0.
Proof.
  induction versions as [|x l IH]; intros Hall Hne; [done|].
  inversion Hall as [|? ? Hx Hl]; subst.
  unfold sortVersions in *. cbn [arraySort foldr].
  change (foldr (sortInsert (sortComparator true)) [] l)
    with (arraySort (sortComparator true) l) in *.
  destruct l as [|y l].
  - exists x. split; [done|]. split; [left|].
    intros u ->%list_elem_of_singleton. by rewrite compareVersions_refl.
  - destruct (IH Hl) as (h & Hh & Hin & Hmax); [done|].
    destruct (arraySort (sortComparator true) (y :: l)) as [|h' rest] eqn:Es;
      [done|].
    injection Hh as ->. cbn [sortInsert].
    assert (Hph : allSegmentsParse h = true).
    { rewrite Forall_forall in Hl. by apply Hl. }
    destruct (sortComparator_sgn x h Hx Hph) as [_ ->].
    destruct (Z.ltb_spec 0 (compareVersions h x)) as [Hgt|Hle].
    + exists h. split; [done|]. split; [by right|].
      intros u [->|Hu]%elem_of_cons; [|by apply Hmax].
      rewrite compareVersions_antisym. lia.
    + exists x. split; [done|]. split; [left|].
      intros u [->|Hu]%elem_of_cons; [by rewrite compareVersions_refl|].
      apply (compareVersions_trans u h x); auto.
      rewrite Forall_forall in Hl. by apply Hl.
Qed.

(** C5, as stated, fails on strings with an unparsable segment: the
    comparator of [sortVersions] reads such a segment as zero and orders
    ["a"] before ["1"], which [compareVersions] calls equal; and
    [getLatestVersion(["1.0", "a.5"])] is ["1.0"], although
    [compareVersions("1.0", "a.5")] is [-1]. *)
Lemma C5_counterexample :
  num_sgn (VersionFormatter.sortComparator false (str "a") (str "1"))
    <> compareVersions (str "a") (str "1")
  /\ VersionFormatter.getLatestVersion [str "1.0"; str "a.5"]
     = Some (str "1.0")
  /\ compareVersions (str "1.0") (str "a.5") = -1.
Proof. vm_compute. repeat split; discriminate. Qed.

(** C5, amended: on strings without an unparsable segment the comparator
    of [sortVersions] agrees in sign with [compareVersions] (ascending:
    with [compareVersions(a,b)]; descending: with
    [compareVersions(b,a)]), and [getLatestVersion] of a non-empty list
    of such strings returns an element of the list that no element
    exceeds under [compareVersions]; of the empty list it returns
    [null]. *)
Theorem C5_sort_helpers_agree_on_parsable
    (a b : jsstring) (versions : list jsstring) :
  allSegmentsParse a = true -> allSegmentsParse b = true ->
  Forall (fun v => allSegmentsParse v = true) versions ->
  (num_sgn (sortComparator false a b) = compareVersions a b
   /\ num_sgn (sortComparator true a b) = compareVersions b a)
  /\ (versions <> [] ->
      exists v, getLatestVersion versions = Some v
                /\ v ∈ versions
                /\ forall u, u ∈ versions -> compareVersions u v <= 0)
  /\ getLatestVersion [] = None.
Proof.
  intros Ha Hb Hall. split; [by apply sortComparator_sgn|].
  split; [|reflexivity]. intros Hne.
  destruct (sortVersions_head_max versions Hall Hne) as (v & Hv & Hin & Hmax).
  exists v. split; [|done]. by destruct versions.
Qed.

Lemma C5_sort_helpers_agree_on_parsable_witness :
  num_sgn (sortComparator false (str "1.0.9") (str "1.0.10"))
    = compareVersions (str "1.0.9") (str "1.0.10")
  /\ exists v, getLatestVersion [str "1.0.9"; str "1.0.10"; str "1.0"] = Some v
               /\ forall u, u ∈ [str "1.0.9"; str "1.0.10"; str "1.0"] ->
                            compareVersions u v <= 0.
Proof.
  destruct (C5_sort_helpers_agree_on_parsable (str "1.0.9") (str "1.0.10")
              [str "1.0.9"; str "1.0.10"; str "1.0"])
    as [[Hasc _] [Hlatest _]].
  - reflexivity.
  - reflexivity.
  - repeat constructor.
  - split; [exact Hasc|].
    destruct Hlatest as (v & Hv & _ & Hmax); [discriminate|].
    exists v. split; [exact Hv | exact Hmax].
Defined.

(** ** The store-URL resolver *)

(** C8, as stated, fails when the override is present but empty: the
    resolver then falls through to the synthesized URL. *)
Lemma C8_counterexample :
  getStoreUrl ios {| iosAppStoreId := Some (str "123456789");
                     androidPackageName := None;
                     iosStoreUrl := Some [];
                     androidStoreUrl := None |}
  <> resolveStoreUrl_spec ios {| iosAppStoreId := Some (str "123456789");
                                 androidPackageName := None;
                                 iosStoreUrl := Some [];
                                 androidStoreUrl := None |}.
Proof. vm_compute. discriminate. Qed.

(** C8, amended: [getStoreUrl] returns, for [ios], the [iosStoreUrl]
    override when it is present and non-empty, else the URL synthesized
    from [iosAppStoreId] when that is present and non-empty, else [null];
    for [android] the same with [androidStoreUrl] and
    [androidPackageName]; for [web] always [null].  That is, the resolver
    is the specified one on the configuration whose empty fields count
    as absent. *)
Theorem C8_store_url_resolution (platform : Platform) (config : AppStoreConfig) :
  getStoreUrl platform config
  = resolveStoreUrl_spec platform (dropEmptyFields config)
  /\ getStoreUrl web config = None.
Proof.
  split; [|reflexivity].
  destruct platform, config as [[[|??]|] [[|??]|] [[|??]|] [[|??]|]];
    reflexivity.
Qed.

(** ** The decision engine *)

Section AsyncFacts.
Context {World Exn : Type}.
Implicit Types w : World.

Lemma bind_resolved {A B} (m : @Async World Exn A) (k : A -> Async B)
    w b w' calls :
  bind m k w = (inr b, w', calls) ->
  exists a w1 calls1 calls2,
    m w = (inr a, w1, calls1) /\ k a w1 = (inr b, w', calls2)
    /\ calls = calls1 ++ calls2.
Proof.
  unfold bind. destruct (m w) as [[[e|a] w1] calls1]; [done|].
  destruct (k a w1) as [[r w2] calls2] eqn:Ek.
  intros [= -> -> <-]. by exists a, w1, calls1, calls2.
Qed.

Lemma bind_step {A B} (m : @Async World Exn A) (k : A -> Async B)
    w a w1 calls1 :
  m w = (inr a, w1, calls1) ->
  bind m k w
  = match k a w1 with (r, w2, calls2) => (r, w2, calls1 ++ calls2) end.
Proof. unfold bind. by intros ->. Qed.

Lemma bind_rejected {A B} (m : @Async World Exn A) (k : A -> Async B)
    w e w1 calls1 :
  m w = (inl e, w1, calls1) -> bind m k w = (inl e, w1, calls1).
Proof. unfold bind. by intros ->. Qed.
End AsyncFacts.

(** What [getVersionInfo] computes from the answers of the data source. *)
Lemma getVersionInfo_resolved {World Exn : Type}
    (dataProvider : IVersionDataProvider World Exn)
    (options : VersionChecker.Options World Exn) w vi w' calls :
  VersionChecker.getVersionInfo dataProvider options w = (inr vi, w', calls) ->
  updateAvailable vi
  = match latestVersion vi with
    | Some latest =>
        str_truthy latest && (compareVersions (currentVersion vi) latest <? 0)
    | None => false
    end.
Proof.
  unfold VersionChecker.getVersionInfo.
  intros (p & w1 & c1 & c1' & _ & H & _)%bind_resolved.
  apply bind_resolved in H as (cur & w2 & c2 & c2' & _ & H & _).
  apply bind_resolved in H as (latest & w3 & c3 & c3' & _ & H & _).
  apply bind_resolved in H as (cfg & w4 & c4 & c4' & _ & H & _).
  injection H as <- _ _. simpl.
  destruct latest as [latest|]; [|done].
  by destruct (str_truthy latest).
Qed.

(** C2, as stated, fails for the empty string as latest version: it is
    not [null] and compares above the current version ["0.-1"], yet
    [updateAvailable] is [false]. *)
Lemma C2_counterexample :
  VersionChecker.getVersionInfo
    (Fixtures.fixedDataProvider (str "0.-1") (Some []) Fixtures.noConfig None)
    (Fixtures.fixedOptions ios true
       VersionChecker.MIN_CHECK_INTERVAL VersionChecker.REMIND_LATER_DURATION)
    tt
  = (inr {| currentVersion := str "0.-1";
            latestVersion := Some [];
            updateAvailable := false;
            storeUrl := None;
            platform := ios |} : Empty_set + VersionInfo,
     tt,
     [CallGetCurrentVersion; CallGetLatestVersion ios; CallGetAppStoreConfig])
  /\ compareVersions (str "0.-1") [] < 0.
Proof. split; reflexivity. Qed.

(** C2, amended: the [VersionInfo] that [getVersionInfo] resolves to has
    [updateAvailable = true] if and only if [latestVersion] is a
    non-empty string (neither [null] nor the empty string) and
    [compareVersions(currentVersion, latestVersion) < 0]. *)
Theorem C2_updateAvailable_iff {World Exn : Type}
    (dataProvider : IVersionDataProvider World Exn)
    (options : VersionChecker.Options World Exn)
    (w w' : World) (vi : VersionInfo) (calls : list Call) :
  VersionChecker.getVersionInfo dataProvider options w = (inr vi, w', calls) ->
  updateAvailable vi = true
  <-> exists latest, latestVersion vi = Some latest /\ latest <> []
                     /\ compareVersions (currentVersion vi) latest < 0.
Proof.
  intros ->%getVersionInfo_resolved.
  destruct (latestVersion vi) as [latest|].
  - rewrite andb_true_iff, Z.ltb_lt. split.
    + intros [Ht Hlt]. exists latest. by destruct latest.
    + intros (l & [= <-] & Hne & Hlt). by destruct latest.
  - split; [done|]. by intros (l & ? & _).
Qed.

Lemma C2_updateAvailable_iff_witness :
  let dataProvider : IVersionDataProvider unit Empty_set :=
    Fixtures.fixedDataProvider (str "1.0.49") (Some (str "1.1.0"))
      Fixtures.noConfig None in
  let options :=
    Fixtures.fixedOptions android true
      VersionChecker.MIN_CHECK_INTERVAL VersionChecker.REMIND_LATER_DURATION in
  let vi :=
    {| currentVersion := str "1.0.49"; latestVersion := Some (str "1.1.0");
       updateAvailable := true; storeUrl := None; platform := android |} in
  let calls :=
    [CallGetCurrentVersion; CallGetLatestVersion android;
     CallGetAppStoreConfig] in
  VersionChecker.getVersionInfo dataProvider options tt = (inr vi, tt, calls)
  /\ (updateAvailable vi = true
      <-> exists latest, latestVersion vi = Some latest /\ latest <> []
                         /\ compareVersions (currentVersion vi) latest < 0).
Proof.
  intros dataProvider options vi calls.
  split; [reflexivity|].
  apply (C2_updateAvailable_iff dataProvider options tt tt vi calls).
  reflexivity.
Defined.

(** C9: when the platform resolves to [web] and [skipWebPlatform] is
    set, [isUpdateAvailable()] resolves to [false] and calls no method
    of the data source (so neither [getCurrentVersion] nor
    [getLatestVersion]); otherwise its outcome is that of
    [getVersionInfo()], with the [updateAvailable] field as the value. *)
Theorem C9_isUpdateAvailable_shortcut {World Exn : Type}
    (dataProvider : IVersionDataProvider World Exn)
    (options : VersionChecker.Options World Exn)
    (w w1 : World) (p : Platform) :
  VersionChecker.getPlatformOption options w = (inr p, w1) ->
  (p = web -> VersionChecker.skipWebPlatform options = true ->
   VersionChecker.isUpdateAvailable dataProvider options w
   = (inr false, w1, []))
  /\ (~ (p = web /\ VersionChecker.skipWebPlatform options = true) ->
      VersionChecker.isUpdateAvailable dataProvider options w
      = match VersionChecker.getVersionInfo dataProvider options w1 with
        | (inr vi, w2, calls) => (inr (updateAvailable vi), w2, calls)
        | (inl e, w2, calls) => (inl e, w2, calls)
        end).
Proof.
  intros Hp.
  assert (Hstep : VersionChecker.getPlatform options w = (inr p, w1, [])).
  { unfold VersionChecker.getPlatform, host. by rewrite Hp. }
  unfold VersionChecker.isUpdateAvailable.
  rewrite (bind_step _ _ _ _ _ _ Hstep). split.
  - intros -> ->. reflexivity.
  - intros Hno.
    destruct (bool_decide (p = web) && VersionChecker.skipWebPlatform options)
      eqn:E.
    + apply andb_true_iff in E as [?%bool_decide_eq_true ?]. by destruct Hno.
    + unfold bind at 1.
      destruct (VersionChecker.getVersionInfo dataProvider options w1)
        as [[[e|vi] w2] calls]; [done|].
      simpl. by rewrite app_nil_r.
Qed.

Lemma C9_isUpdateAvailable_shortcut_witness :
  let dataProvider : IVersionDataProvider unit Empty_set :=
    Fixtures.fixedDataProvider (str "1.0.49") (Some (str "1.1.0"))
      Fixtures.noConfig None in
  let options :=
    Fixtures.fixedOptions web true
      VersionChecker.MIN_CHECK_INTERVAL VersionChecker.REMIND_LATER_DURATION in
  VersionChecker.getPlatformOption options tt = (inr web, tt)
  /\ VersionChecker.isUpdateAvailable dataProvider options tt
     = (inr false, tt, []).
Proof.
  intros dataProvider options. split; [reflexivity|].
  apply (C9_isUpdateAvailable_shortcut dataProvider options tt tt web);
    reflexivity.
Defined.

(** ** Evaluations that leave the preference store alone *)

Section FrameFacts.
Context {World Exn Prefs : Type}.
(** What the preference store holds, as a view of the world. *)
Context (prefs : World -> Prefs).

Lemma quiet_ret {A} (a : A) : quiet prefs (ret a : @Async World Exn A).
Proof. intros w r w' calls [= <- <- <-]. split; [done | constructor]. Qed.

Lemma quiet_bind {A B} (m : @Async World Exn A) (k : A -> Async B) :
  quiet prefs m -> (forall a, quiet prefs (k a)) -> quiet prefs (bind m k).
Proof.
  intros Hm Hk w r w' calls. unfold bind.
  destruct (m w) as [[[e|a] w1] calls1] eqn:Em.
  - intros [= <- <- <-]. by apply (Hm w (inl e)).
  - destruct (k a w1) as [[r2 w2] calls2] eqn:Ek. intros [= <- <- <-].
    destruct (Hm _ _ _ _ Em) as [E1 ?], (Hk _ _ _ _ _ Ek) as [E2 ?].
    split; [congruence | by apply Forall_app].
Qed.

Lemma quiet_invoke {A} (c : Call) (op : @Op World Exn A) :
  isStoreWrite c = false -> preserves prefs op -> quiet prefs (invoke c op).
Proof.
  intros Hc Hop w r w' calls. unfold invoke. specialize (Hop w).
  destruct (op w) as [r1 w1]. intros [= <- <- <-].
  split; [done | by repeat constructor].
Qed.

Lemma quiet_host {A} (op : @Op World Exn A) : preserves prefs op -> quiet prefs (host op).
Proof.
  intros Hop w r w' calls. unfold host. specialize (Hop w).
  destruct (op w) as [r1 w1]. intros [= <- <- <-].
  split; [done | constructor].
Qed.

Lemma quietOnSkip_quiet (m : @Async World Exn VersionCheckResult) : quiet prefs m -> quietOnSkip prefs m.
Proof. intros Hm w res w' calls E _. by apply (Hm _ _ _ _ E). Qed.

Lemma quietOnSkip_bind {A} (m : @Async World Exn A) k :
  quiet prefs m -> (forall a, quietOnSkip prefs (k a)) -> quietOnSkip prefs (bind m k).
Proof.
  intros Hm Hk w res w' calls
    (a & w1 & calls1 & calls2 & Em & Ek & ->)%bind_resolved Hskip.
  destruct (Hm _ _ _ _ Em) as [E1 ?], (Hk _ _ _ _ _ Ek Hskip) as [E2 ?].
  split; [congruence | by apply Forall_app].
Qed.

Section Engine.
Context (dataProvider : IVersionDataProvider World Exn)
        (storageProvider : IStorageProvider World Exn)
        (options : VersionChecker.Options World Exn)
        (Date_now : World -> number * World).
Context (Hreads : ReadsPreserve prefs dataProvider storageProvider options Date_now).

Lemma quiet_dateNow : quiet (Exn := Exn) prefs (VersionChecker.dateNow Date_now).
Proof.
  intros w r w' calls. unfold VersionChecker.dateNow.
  pose proof (preserves_Date_now prefs _ _ _ _ Hreads w) as Hw.
  destruct (Date_now w) as [t w1]. intros [= <- <- <-].
  split; [done | constructor].
Qed.

Lemma quiet_getPlatform : quiet prefs (VersionChecker.getPlatform options).
Proof. apply quiet_host, Hreads. Qed.

Lemma quiet_getVersionInfo :
  quiet prefs (VersionChecker.getVersionInfo dataProvider options).
Proof.
  unfold VersionChecker.getVersionInfo.
  apply quiet_bind; [apply quiet_getPlatform | intros p].
  apply quiet_bind; [apply quiet_invoke; [done | apply Hreads] | intros cur].
  apply quiet_bind; [apply quiet_invoke; [done | apply Hreads] | intros lat].
  apply quiet_bind; [apply quiet_invoke; [done | apply Hreads] | intros cfg].
  apply quiet_ret.
Qed.

Lemma quiet_inRemindLaterPeriod t :
  quiet (Exn := Exn) prefs (VersionChecker.inRemindLaterPeriod Date_now t).
Proof.
  unfold VersionChecker.inRemindLaterPeriod.
  destruct t as [t|]; [destruct (num_truthy t)|]; try apply quiet_ret.
  apply quiet_bind; [apply quiet_dateNow | intros; apply quiet_ret].
Qed.

Lemma quiet_checkedTooRecently t :
  quiet prefs (VersionChecker.checkedTooRecently options Date_now t).
Proof.
  unfold VersionChecker.checkedTooRecently.
  destruct t as [t|]; [destruct (num_truthy t)|]; try apply quiet_ret.
  apply quiet_bind; [apply quiet_dateNow | intros; apply quiet_ret].
Qed.

Lemma quiet_alreadyShown vi :
  quiet prefs (VersionChecker.alreadyShown dataProvider storageProvider vi).
Proof.
  unfold VersionChecker.alreadyShown.
  destruct (getLastShownVersion storageProvider) as [g|] eqn:Eg;
    [|apply quiet_ret].
  apply quiet_bind.
  { apply quiet_invoke; [done|].
    by apply (preserves_getLastShownVersion prefs _ _ _ _ Hreads). }
  intros shown. destruct (bool_decide _); [|apply quiet_ret].
  destruct (isUpdateMandatory dataProvider) as [f|] eqn:Ef;
    [|apply quiet_ret].
  apply quiet_bind; [|intros; apply quiet_ret].
  apply quiet_invoke; [done|].
  by apply (preserves_isUpdateMandatory prefs _ _ _ _ Hreads).
Qed.

(** Past the last skip test no throttling skip is returned. *)
Lemma quietOnSkip_recordPrompt vi :
  quietOnSkip prefs (VersionChecker.recordPrompt storageProvider Date_now vi).
Proof.
  intros w res w' calls. unfold VersionChecker.recordPrompt.
  intros (now & w1 & c1 & c1' & _ & H & _)%bind_resolved.
  apply bind_resolved in H as (u1 & w2 & c2 & c2' & _ & H & _).
  apply bind_resolved in H as (u2 & w3 & c3 & c3' & _ & H & _).
  injection H as <- _ _. done.
Qed.

Lemma quietOnSkip_tryBlock :
  quietOnSkip prefs
    (VersionChecker.tryBlock dataProvider storageProvider options Date_now).
Proof.
  unfold VersionChecker.tryBlock.
  apply quietOnSkip_bind; [apply quiet_getVersionInfo | intros vi].
  destruct (negb _); [apply quietOnSkip_quiet, quiet_ret|].
  apply quietOnSkip_bind;
    [apply quiet_invoke; [done | apply Hreads] | intros remind].
  apply quietOnSkip_bind; [apply quiet_inRemindLaterPeriod | intros [|]];
    [apply quietOnSkip_quiet, quiet_ret|].
  apply quietOnSkip_bind;
    [apply quiet_invoke; [done | apply Hreads] | intros last].
  apply quietOnSkip_bind; [apply quiet_checkedTooRecently | intros [|]];
    [apply quietOnSkip_quiet, quiet_ret|].
  apply quietOnSkip_bind; [apply quiet_alreadyShown | intros [|]];
    [apply quietOnSkip_quiet, quiet_ret|].
  apply quietOnSkip_recordPrompt.
Qed.

Lemma quietOnSkip_shouldShowUpdatePrompt :
  quietOnSkip prefs
    (VersionChecker.shouldShowUpdatePrompt
       dataProvider storageProvider options Date_now).
Proof.
  unfold VersionChecker.shouldShowUpdatePrompt.
  apply quietOnSkip_bind; [apply quiet_getPlatform | intros p].
  destruct (_ && _).
  - apply quietOnSkip_quiet, quiet_bind;
      [apply quiet_getVersionInfo | intros; apply quiet_ret].
  - intros w res w' calls. unfold tryCatch.
    destruct (VersionChecker.tryBlock _ _ _ _ w)
      as [[[e|res1] w1] calls1] eqn:Ebody.
    + destruct (bind _ _ w1) as [[r2 w2] calls2] eqn:Eh.
      intros [= -> -> <-].
      apply bind_resolved in Eh as (vi & ? & ? & ? & _ & H & _).
      injection H as <- _ _. done.
    + intros [= -> -> ->]. by apply quietOnSkip_tryBlock.
Qed.
End Engine.
End FrameFacts.



(** ** Scenario B: a fresh store, then an immediate second call *)



(** ** Scenario E: the data source throws *)

(** C1 fails on the code.  With a data source whose [getLatestVersion]
    rejects on every call (platform [ios], in-memory store),
    [shouldShowUpdatePrompt()] rejects with the error of the data
    source: the [catch] block calls [getVersionInfo()] again, outside any
    [try], and that call rejects as the first one did.  The calls made
    are the two fetches of the [try] block and the two of the handler. *)
Theorem C1_rejecting_provider_propagates :
  VersionChecker.shouldShowUpdatePrompt
    (Fixtures.failingDataProvider (str "1.0.0") "network error"%string
       Fixtures.noConfig)
    InMemoryStorageProvider
    (Fixtures.fixedOptions ios true
       VersionChecker.MIN_CHECK_INTERVAL VersionChecker.REMIND_LATER_DURATION)
    (Fixtures.clockBeside Fixtures.ticking)
    (emptyStorage, 1700000000000)
  = (inl "network error"%string,
     (emptyStorage, 1700000000000),
     [CallGetCurrentVersion; CallGetLatestVersion ios;
      CallGetCurrentVersion; CallGetLatestVersion ios]).
Proof. reflexivity. Qed.

(** The failure does not depend on the fixture: whenever the platform is
    not skipped, [getCurrentVersion] resolves and [getLatestVersion]
    rejects, both without changing the world, the call rejects. *)
Lemma persistent_failure_propagates {World Exn : Type}
    (dataProvider : IVersionDataProvider World Exn)
    (storageProvider : IStorageProvider World Exn)
    (options : VersionChecker.Options World Exn)
    (Date_now : World -> number * World)
    (p : Platform) (current : jsstring) (e : Exn) (w : World) :
  (forall w, VersionChecker.getPlatformOption options w = (inr p, w)) ->
  bool_decide (p = web) && VersionChecker.skipWebPlatform options = false ->
  (forall w, getCurrentVersion dataProvider w = (inr current, w)) ->
  (forall w, Providers.getLatestVersion dataProvider p w = (inl e, w)) ->
  VersionChecker.shouldShowUpdatePrompt
    dataProvider storageProvider options Date_now w
  = (inl e, w,
     [CallGetCurrentVersion; CallGetLatestVersion p;
      CallGetCurrentVersion; CallGetLatestVersion p]).
Proof.
  intros Hp Hskip Hcur Hlat.
  assert (Hinfo : forall w,
    VersionChecker.getVersionInfo dataProvider options w
    = (inl e, w, [CallGetCurrentVersion; CallGetLatestVersion p])).
  { intros w0. unfold VersionChecker.getVersionInfo, VersionChecker.getPlatform,
      bind, host, invoke. by rewrite Hp, Hcur, Hlat. }
  unfold VersionChecker.shouldShowUpdatePrompt, VersionChecker.getPlatform,
    VersionChecker.tryBlock, tryCatch, bind at 1, host.
  rewrite Hp, Hskip. unfold bind. by rewrite !Hinfo.
Qed.

(** A failure of the preference store, by contrast, is absorbed: the
    handler's second [getVersionInfo()] succeeds and the call resolves
    with skip reason [error]. *)
Lemma store_failure_absorbed :
  VersionChecker.shouldShowUpdatePrompt
    (Fixtures.fixedDataProvider (str "1.0.49") (Some (str "1.1.0"))
       Fixtures.noConfig None)
    (Fixtures.failingStorageProvider "storage error"%string)
    (Fixtures.fixedOptions ios true
       VersionChecker.MIN_CHECK_INTERVAL VersionChecker.REMIND_LATER_DURATION)
    (Fixtures.clockBeside Fixtures.ticking)
    (emptyStorage, 1700000000000)
  = (inr (VersionChecker.skipped
            {| currentVersion := str "1.0.49";
               latestVersion := Some (str "1.1.0");
               updateAvailable := true; storeUrl := None; platform := ios |}
            error),
     (emptyStorage, 1700000000000),
     [CallGetCurrentVersion; CallGetLatestVersion ios; CallGetAppStoreConfig;
      CallGetRemindLaterTime;
      CallGetCurrentVersion; CallGetLatestVersion ios; CallGetAppStoreConfig]).
Proof. reflexivity. Qed.

(** ** Where the writes are *)

Section OutcomeFacts.
Context {World Exn : Type}.

Lemma resolvesWith_ret P res :
  P res -> resolvesWith P (ret res : @Async World Exn VersionCheckResult).
Proof. intros HP w res' w' calls [= <- _ _]. exact HP. Qed.

Lemma resolvesWith_bind {A} P (m : @Async World Exn A) k :
  (forall a, resolvesWith P (k a)) -> resolvesWith P (bind m k).
Proof.
  intros Hk w res w' calls (a & w1 & c1 & c2 & _ & Ek & _)%bind_resolved.
  by apply (Hk a w1 res w' c2).
Qed.

Lemma resolvesWith_tryCatch P (body : @Async World Exn VersionCheckResult) h :
  resolvesWith P body -> (forall e, resolvesWith P (h e)) ->
  resolvesWith P (tryCatch body h).
Proof.
  intros Hb Hh w res w' calls. unfold tryCatch.
  destruct (body w) as [[[e|res1] w1] calls1] eqn:Eb.
  - destruct (h e w1) as [[r2 w2] calls2] eqn:Eh. intros [= -> _ _].
    by apply (Hh e w1 res w2 calls2).
  - intros [= <- _ _]. by apply (Hb w res1 w1 calls1).
Qed.

Lemma shouldShowUpdatePrompt_promptsOrSkips
    (dataProvider : IVersionDataProvider World Exn)
    (storageProvider : IStorageProvider World Exn)
    (options : VersionChecker.Options World Exn)
    (Date_now : World -> number * World) :
  resolvesWith promptsOrSkips
    (VersionChecker.shouldShowUpdatePrompt
       dataProvider storageProvider options Date_now).
Proof.
  assert (Hskip : forall vi reason,
    resolvesWith (World := World) (Exn := Exn) promptsOrSkips
      (ret (VersionChecker.skipped vi reason))).
  { intros. apply resolvesWith_ret. by right. }
  unfold VersionChecker.shouldShowUpdatePrompt.
  apply resolvesWith_bind; intros p. destruct (_ && _).
  { apply resolvesWith_bind; intros vi. apply Hskip. }
  apply resolvesWith_tryCatch;
    [|intros e; apply resolvesWith_bind; intros vi; apply Hskip].
  unfold VersionChecker.tryBlock.
  apply resolvesWith_bind; intros vi. destruct (negb _); [apply Hskip|].
  apply resolvesWith_bind; intros remind.
  apply resolvesWith_bind; intros [|]; [apply Hskip|].
  apply resolvesWith_bind; intros last.
  apply resolvesWith_bind; intros [|]; [apply Hskip|].
  apply resolvesWith_bind; intros [|]; [apply Hskip|].
  unfold VersionChecker.recordPrompt.
  do 3 (apply resolvesWith_bind; intros ?).
  apply resolvesWith_ret. by left.
Qed.
End OutcomeFacts.

(** When a resolved call did write to the store, it resolved to
    [shouldShowPrompt: true], unless a later provider call threw and the
    handler turned the outcome into [error]. *)
Lemma writes_only_past_the_skip_tests {World Exn Prefs : Type}
    (prefs : World -> Prefs)
    (dataProvider : IVersionDataProvider World Exn)
    (storageProvider : IStorageProvider World Exn)
    (options : VersionChecker.Options World Exn)
    (Date_now : World -> number * World)
    (w w' : World) (res : VersionCheckResult) (calls : list Call) :
  ReadsPreserve prefs dataProvider storageProvider options Date_now ->
  VersionChecker.shouldShowUpdatePrompt
    dataProvider storageProvider options Date_now w = (inr res, w', calls) ->
  ~ noStoreWrite calls ->
  shouldShowPrompt res = true \/ skipReason res = Some error.
Proof.
  intros Hreads Hrun Hwrite.
  destruct (shouldShowUpdatePrompt_promptsOrSkips _ _ _ _ _ _ _ _ Hrun)
    as [[Hp _]|[_ Hs]]; [by left|].
  destruct (isThrottleSkip (skipReason res)) eqn:Et.
  - destruct Hwrite.
    by apply (quietOnSkip_shouldShowUpdatePrompt prefs _ _ _ _ Hreads
                _ _ _ _ Hrun).
  - right. by destruct (skipReason res) as [[]|].
Qed.

(** * Further properties of the code *)

(** ** The comparator as an order *)

Lemma compareUpTo_zero_cong n p q r :
  noNaN p -> noNaN q -> noNaN r ->
  compareUpTo n p q = 0 -> compareUpTo n p r = compareUpTo n q r.
Proof.
  revert p q r. induction n as [|n IH]; intros p q r Hp Hq Hr; [done|].
  cbn [compareUpTo]. unfold num_gt.
  pose proof (noNaN_head p Hp) as Hx. pose proof (noNaN_head q Hq) as Hy.
  pose proof (IH (tail p) (tail q) (tail r) (noNaN_tail _ Hp)
                (noNaN_tail _ Hq) (noNaN_tail _ Hr)) as IH'.
  generalize dependent (headOrZero p). generalize dependent (headOrZero q).
  intros y Hy x Hx.
  destruct (num_lt x y) eqn:Exy; [done|].
  destruct (num_lt y x) eqn:Eyx; [done|].
  rewrite (num_lt_total x y) by done. intros H0.
  destruct (num_lt y (headOrZero r)); [done|].
  destruct (num_lt (headOrZero r) y); [done|]. by apply IH'.
Qed.

(** X1: on version strings without an unparsable segment
    [compareVersions] orders consistently: "not greater" is transitive,
    and two strings that compare equal compare alike with every third. *)
Theorem X1_compareVersions_preorder (a b c : jsstring) :
  allSegmentsParse a = true -> allSegmentsParse b = true ->
  allSegmentsParse c = true ->
  (compareVersions a b <= 0 -> compareVersions b c <= 0 ->
   compareVersions a c <= 0)
  /\ (compareVersions a b = 0 -> compareVersions a c = compareVersions b c).
Proof.
  intros Ha Hb Hc. split; [by apply compareVersions_trans|].
  apply allSegmentsParse_noNaN in Ha, Hb, Hc.
  set (n := Nat.max (length (versionParts a))
              (Nat.max (length (versionParts b)) (length (versionParts c)))).
  rewrite (compareVersions_upTo a b n), (compareVersions_upTo b c n),
    (compareVersions_upTo a c n) by lia.
  by apply compareUpTo_zero_cong.
Qed.

Lemma X1_compareVersions_preorder_witness :
  compareVersions (str "1.0") (str "1.0.0") = 0
  /\ compareVersions (str "1.0") (str "1.0.1")
     = compareVersions (str "1.0.0") (str "1.0.1").
Proof.
  split; [reflexivity|].
  apply (X1_compareVersions_preorder (str "1.0") (str "1.0.0") (str "1.0.1"));
    reflexivity.
Defined.

(** ** [parseVersion] and [getVersionDiff] *)

Lemma isDigit_not_space c : isDigit c = true -> isStrWhiteSpaceChar c = false.
Proof.
  unfold isDigit, isStrWhiteSpaceChar. intros H.
  apply andb_true_iff in H as [H1%N.leb_le H2%N.leb_le].
  repeat match goal with
  | |- _ || _ = false => apply orb_false_iff; split
  | |- _ && _ = false => apply andb_false_iff
  end; rewrite ?Z.leb_gt, ?Z.eqb_neq; lia.
Qed.

(** [parseInt] on a non-empty run of digits reads all of it. *)
Lemma parseInt_digits seg :
  str_truthy seg = true -> forallb isDigit seg = true ->
  parseInt seg = Number_of_Z (decimalValue seg).
Proof.
  destruct seg as [|c seg]; [done|]. intros _ Hall.
  simpl in Hall. apply andb_true_iff in Hall as [Hc Hseg].
  unfold parseInt. cbn [trimStart]. rewrite (isDigit_not_space c Hc).
  assert (Hc' := Hc). unfold isDigit in Hc'.
  apply andb_true_iff in Hc' as [H1%N.leb_le H2%N.leb_le].
  destruct (N.eqb_spec c 45); [lia|]. destruct (N.eqb_spec c 43); [lia|].
  assert (Hpre : forall s, forallb isDigit s = true -> digitPrefix s = s).
  { induction s as [|d s IHs]; [done|]. simpl.
    intros [-> Hs]%andb_true_iff. by rewrite IHs. }
  rewrite (Hpre (c :: seg)) by (simpl; by rewrite Hc, Hseg).
  by rewrite Z.mul_1_l.
Qed.

Lemma isValidVersion_parts version :
  isValidVersion version = true ->
  noNaN (versionParts version)
  /\ (length (versionParts version) = 3%nat
      \/ length (versionParts version) = 4%nat).
Proof.
  unfold isValidVersion, versionParts, noNaN.
  intros [Hlen Hall]%andb_true_iff. split.
  - rewrite Forall_map, Forall_forall. intros seg Hseg.
    rewrite forallb_forall in Hall.
    apply list_elem_of_In, Hall, andb_true_iff in Hseg as [H1 H2].
    rewrite (parseInt_digits seg H1 H2). apply Number_of_Z_not_NaN.
  - rewrite length_map.
    apply orb_true_iff in Hlen as [H%Nat.eqb_eq|H%Nat.eqb_eq]; auto.
Qed.

(** The four components [compareVersions] looks at on valid versions. *)
Lemma isValidVersion_shape version :
  isValidVersion version = true ->
  exists x1 x2 x3 x4,
    isNaN x1 = false /\ isNaN x2 = false /\ isNaN x3 = false
    /\ isNaN x4 = false
    /\ parseVersion version
       = {| major := x1; minor := x2; patch := x3;
            build := build (parseVersion version) |}
    /\ orZero (build (parseVersion version)) = x4
    /\ forall other,
         compareUpTo 4 (versionParts version) other
         = compareUpTo 4 [x1; x2; x3; x4] other.
Proof.
  intros [Hnan Hlen]%isValidVersion_parts.
  unfold parseVersion. fold (versionParts version).
  destruct (versionParts version) as [|x1 [|x2 [|x3 [|x4 [|]]]]];
    simpl in Hlen; try (destruct Hlen; discriminate).
  - apply Forall_cons in Hnan as [H1 Hnan].
    apply Forall_cons in Hnan as [H2 Hnan].
    apply Forall_cons in Hnan as [H3 _].
    exists x1, x2, x3, (Num 0). change (build _) with (@None number).
    change (orZero ([x1; x2; x3] !! 0%nat)) with (orZero (Some x1)).
    change (orZero ([x1; x2; x3] !! 1%nat)) with (orZero (Some x2)).
    change (orZero ([x1; x2; x3] !! 2%nat)) with (orZero (Some x3)).
    rewrite !orZero_Some by done. repeat split; done.
  - apply Forall_cons in Hnan as [H1 Hnan].
    apply Forall_cons in Hnan as [H2 Hnan].
    apply Forall_cons in Hnan as [H3 Hnan].
    apply Forall_cons in Hnan as [H4 _].
    exists x1, x2, x3, x4. change (build _) with (Some x4).
    change (orZero ([x1; x2; x3; x4] !! 0%nat)) with (orZero (Some x1)).
    change (orZero ([x1; x2; x3; x4] !! 1%nat)) with (orZero (Some x2)).
    change (orZero ([x1; x2; x3; x4] !! 2%nat)) with (orZero (Some x3)).
    rewrite !orZero_Some by done. repeat split; done.
Qed.

Lemma compareVersions_valid_four a b :
  isValidVersion a = true -> isValidVersion b = true ->
  compareVersions a b = compareUpTo 4 (versionParts a) (versionParts b).
Proof.
  intros [_ Ha]%isValidVersion_parts [_ Hb]%isValidVersion_parts.
  apply compareVersions_upTo; lia.
Qed.

(** Equality of the four components, position by position. *)
Lemma compareUpTo_four_zero x1 x2 x3 x4 y1 y2 y3 y4 :
  isNaN x1 = false -> isNaN x2 = false -> isNaN x3 = false ->
  isNaN x4 = false -> isNaN y1 = false -> isNaN y2 = false ->
  isNaN y3 = false -> isNaN y4 = false ->
  compareUpTo 4 [x1; x2; x3; x4] [y1; y2; y3; y4] = 0
  <-> x1 = y1 /\ x2 = y2 /\ x3 = y3 /\ x4 = y4.
Proof.
  intros. cbn [compareUpTo tail]. unfold num_gt.
  change (headOrZero (?z :: _)) with z. split.
  - repeat match goal with
    | |- context [num_lt ?u ?v] =>
        lazymatch goal with
        | H : num_lt u v = _ |- _ => fail
        | _ => destruct (num_lt u v) eqn:?
        end
    end; try done.
    intros _. repeat split; by apply num_lt_total.
  - intros (-> & -> & -> & ->). by rewrite !num_lt_irrefl.
Qed.

(** X2: two valid versions compare equal exactly when [parseVersion]
    gives them the same major, minor and patch numbers and the same
    build number, a missing build number counting as zero. *)
Theorem X2_valid_versions_equal_iff_parsed_equal (a b : jsstring) :
  isValidVersion a = true -> isValidVersion b = true ->
  compareVersions a b = 0
  <-> major (parseVersion a) = major (parseVersion b)
      /\ minor (parseVersion a) = minor (parseVersion b)
      /\ patch (parseVersion a) = patch (parseVersion b)
      /\ orZero (build (parseVersion a)) = orZero (build (parseVersion b)).
Proof.
  intros Ha Hb. rewrite (compareVersions_valid_four a b Ha Hb).
  destruct (isValidVersion_shape a Ha)
    as (x1 & x2 & x3 & x4 & ? & ? & ? & ? & -> & -> & Hca).
  destruct (isValidVersion_shape b Hb)
    as (y1 & y2 & y3 & y4 & ? & ? & ? & ? & -> & -> & Hcb).
  rewrite Hca, compareUpTo_antisym, Hcb, <- compareUpTo_antisym.
  cbn [major minor patch]. by apply compareUpTo_four_zero.
Qed.

Lemma X2_valid_versions_equal_iff_parsed_equal_witness :
  compareVersions (str "1.2.3") (str "01.2.3.0") = 0
  <-> major (parseVersion (str "1.2.3")) = major (parseVersion (str "01.2.3.0"))
      /\ minor (parseVersion (str "1.2.3")) = minor (parseVersion (str "01.2.3.0"))
      /\ patch (parseVersion (str "1.2.3")) = patch (parseVersion (str "01.2.3.0"))
      /\ orZero (build (parseVersion (str "1.2.3")))
         = orZero (build (parseVersion (str "01.2.3.0"))).
Proof.
  apply (X2_valid_versions_equal_iff_parsed_equal (str "1.2.3") (str "01.2.3.0"));
    reflexivity.
Defined.

Lemma num_strict_neq_sym x y : num_strict_neq x y = num_strict_neq y x.
Proof.
  destruct x, y; simpl; try done.
  destruct (decide (Num z = Num z0)) as [E|E].
  - by rewrite !bool_decide_eq_true_2.
  - by rewrite !bool_decide_eq_false_2.
Qed.

(** X3: [getVersionDiff] reports type [none] exactly when the two
    strings compare equal; otherwise it names the smaller string as
    [fromVersion] and the greater as [toVersion] whichever way round
    they are passed, so that swapping the arguments changes nothing. *)
Theorem X3_getVersionDiff_orders_its_result (v1 v2 : jsstring) :
  (type (getVersionDiff v1 v2) = diff_none <-> compareVersions v1 v2 = 0)
  /\ (compareVersions v1 v2 <> 0 ->
      compareVersions (fromVersion (getVersionDiff v1 v2))
                      (toVersion (getVersionDiff v1 v2)) = -1
      /\ getVersionDiff v2 v1 = getVersionDiff v1 v2).
Proof.
  unfold getVersionDiff. rewrite (compareVersions_antisym v2 v1).
  rewrite !(num_strict_neq_sym (_ (parseVersion v2)) (_ (parseVersion v1))).
  destruct (compareVersions_range v1 v2) as [E|[E|E]]; rewrite E; simpl.
  - split; [|intros _; split; [exact E | done]].
    split; [|done]. by repeat destruct (num_strict_neq _ _).
  - by split.
  - split; [|intros _; split; [by rewrite compareVersions_antisym, E | done]].
    split; [|done]. by repeat destruct (num_strict_neq _ _).
Qed.

(** X4: on valid versions the type [getVersionDiff] reports is accurate:
    [major], [minor] or [patch] names the first of these components
    that differs, [build] means that the three agree and the build
    numbers (a missing one counting as zero) differ, and [none] that
    all four agree. *)
Theorem X4_getVersionDiff_type_accurate (a b : jsstring) :
  isValidVersion a = true -> isValidVersion b = true ->
  let pa := parseVersion a in
  let pb := parseVersion b in
  match type (getVersionDiff a b) with
  | diff_major => major pa <> major pb
  | diff_minor => major pa = major pb /\ minor pa <> minor pb
  | diff_patch =>
      major pa = major pb /\ minor pa = minor pb /\ patch pa <> patch pb
  | diff_build =>
      major pa = major pb /\ minor pa = minor pb /\ patch pa = patch pb
      /\ orZero (build pa) <> orZero (build pb)
  | diff_none =>
      major pa = major pb /\ minor pa = minor pb /\ patch pa = patch pb
      /\ orZero (build pa) = orZero (build pb)
  end.
Proof.
  intros Ha Hb pa pb.
  pose proof (X2 := compareVersions_valid_four a b Ha Hb).
  destruct (isValidVersion_shape a Ha)
    as (x1 & x2 & x3 & x4 & Hx1 & Hx2 & Hx3 & Hx4 & Epa & Eba & Hca).
  destruct (isValidVersion_shape b Hb)
    as (y1 & y2 & y3 & y4 & Hy1 & Hy2 & Hy3 & Hy4 & Epb & Ebb & Hcb).
  rewrite Hca, compareUpTo_antisym, Hcb, <- compareUpTo_antisym in X2.
  pose proof (compareUpTo_four_zero x1 x2 x3 x4 y1 y2 y3 y4
                Hx1 Hx2 Hx3 Hx4 Hy1 Hy2 Hy3 Hy4) as Hzero.
  rewrite <- X2 in Hzero.
  unfold getVersionDiff. fold pa pb. subst pa pb.
  rewrite Eba, Ebb, Epa, Epb. cbn [major minor patch].
  destruct (Z.eqb_spec (compareVersions a b) 0) as [E0|E0]; cbn [type].
  - by apply Hzero.
  - rewrite !num_strict_neq_spec by done.
    destruct (decide (x1 = y1)) as [->|N1];
      [rewrite bool_decide_eq_true_2 by done
      |by rewrite bool_decide_eq_false_2 by done].
    destruct (decide (x2 = y2)) as [->|N2];
      [rewrite bool_decide_eq_true_2 by done
      |by rewrite bool_decide_eq_false_2 by done].
    destruct (decide (x3 = y3)) as [->|N3];
      [rewrite bool_decide_eq_true_2 by done
      |by rewrite bool_decide_eq_false_2 by done].
    cbn [negb]. repeat split. intros ->. apply E0. by apply Hzero.
Qed.

Lemma X4_getVersionDiff_type_accurate_witness :
  type (getVersionDiff (str "1.0.36") (str "1.0.36.349")) = diff_build
  /\ orZero (build (parseVersion (str "1.0.36")))
     <> orZero (build (parseVersion (str "1.0.36.349"))).
Proof.
  split; [reflexivity|].
  pose proof (X4_getVersionDiff_type_accurate (str "1.0.36") (str "1.0.36.349")
                eq_refl eq_refl) as H.
  exact (proj2 (proj2 (proj2 H))).
Defined.

(** ** Base version and build number *)

Lemma join_split s : join (split s) = s.
Proof.
  induction s as [|c s IH]; [done|]. simpl.
  pose proof (split_not_nil s) as Hne.
  destruct (N.eqb_spec c dot) as [->|_].
  - destruct (split s) as [|seg segs]; [done|].
    change (join ([] :: seg :: segs)) with (dot :: join (seg :: segs)).
    by rewrite IH.
  - destruct (split s) as [|seg [|seg' segs]]; [done|..].
    + simpl in *. by rewrite IH.
    + change (join ((c :: seg) :: seg' :: segs))
        with (c :: join (seg :: seg' :: segs)).
      by rewrite IH.
Qed.

Lemma split_extractBaseVersion version :
  split (extractBaseVersion version) = take 3 (split version).
Proof.
  unfold extractBaseVersion. apply split_join.
  - pose proof (split_not_nil version). by destruct (split version).
  - apply Forall_take, split_segments_noDot.
Qed.

(** X5: [extractBaseVersion] keeps exactly the first three segments of
    the string: it returns a string of three segments or fewer
    unchanged, what it returns has no build number left, and applying
    it twice is applying it once. *)
Theorem X5_extractBaseVersion_first_three (version : jsstring) :
  split (extractBaseVersion version) = take 3 (split version)
  /\ ((length (split version) <= 3)%nat -> extractBaseVersion version = version)
  /\ extractBuildNumber (extractBaseVersion version) = None
  /\ extractBaseVersion (extractBaseVersion version)
     = extractBaseVersion version.
Proof.
  split; [apply split_extractBaseVersion|]. split; [|split].
  - intros Hlen. unfold extractBaseVersion.
    rewrite take_ge by done. apply join_split.
  - unfold extractBuildNumber. rewrite split_extractBaseVersion.
    destruct (Nat.ltb_spec 3 (length (take 3 (split version)))) as [H|_];
      [|done].
    rewrite length_take in H. lia.
  - unfold extractBaseVersion at 1. rewrite split_extractBaseVersion.
    by rewrite take_take.
Qed.

(** X6: a base version of exactly three segments and a build number
    given as a non-empty string without a full stop survive
    [formatVersionWithBuild]: [extractBaseVersion] and
    [extractBuildNumber] give them back. *)
Theorem X6_formatVersionWithBuild_then_extract
    (platformVersion buildNumber : jsstring) :
  length (split platformVersion) = 3%nat ->
  buildNumber <> [] -> dot ∉ buildNumber ->
  let version :=
    formatVersionWithBuild platformVersion (Some (inl buildNumber)) in
  extractBaseVersion version = platformVersion
  /\ extractBuildNumber version = Some buildNumber.
Proof.
  intros Hlen Hne Hdot version.
  assert (Hsplit : split version = split platformVersion ++ [buildNumber]).
  { subst version. unfold formatVersionWithBuild.
    destruct buildNumber; [done|].
    by rewrite split_app_dot, (split_noDot (_ :: _)). }
  unfold extractBaseVersion, extractBuildNumber. rewrite Hsplit. split.
  - rewrite take_app_length' by done. apply join_split.
  - rewrite length_app, Hlen. simpl.
    by rewrite lookup_app_r, Hlen by lia.
Qed.

Lemma X6_formatVersionWithBuild_then_extract_witness :
  extractBaseVersion
    (formatVersionWithBuild (str "1.0.36") (Some (inl (str "349"))))
  = str "1.0.36"
  /\ extractBuildNumber
       (formatVersionWithBuild (str "1.0.36") (Some (inl (str "349"))))
     = Some (str "349").
Proof.
  apply (X6_formatVersionWithBuild_then_extract (str "1.0.36") (str "349")).
  - reflexivity.
  - discriminate.
  - cbn. rewrite !elem_of_cons, elem_of_nil.
    intros [?|[?|[?|[]]]]; discriminate.
Defined.

(** X7: a string of exactly four segments whose fourth is not empty is
    put together again by [formatVersionWithBuild] from its base version
    and its build number. *)
Theorem X7_extract_then_formatVersionWithBuild (version build : jsstring) :
  length (split version) = 4%nat ->
  extractBuildNumber version = Some build -> build <> [] ->
  formatVersionWithBuild (extractBaseVersion version) (Some (inl build))
  = version.
Proof.
  intros Hlen Hbuild Hne.
  unfold extractBuildNumber in Hbuild. rewrite Hlen in Hbuild. simpl in Hbuild.
  unfold formatVersionWithBuild, extractBaseVersion.
  destruct build as [|c build]; [done|].
  rewrite <- (join_split version) at 2.
  destruct (split version) as [|s1 [|s2 [|s3 [|s4 [|]]]]]; try discriminate.
  simpl in Hbuild. injection Hbuild as ->.
  simpl. by repeat (rewrite <- app_assoc; simpl).
Qed.

Lemma X7_extract_then_formatVersionWithBuild_witness :
  formatVersionWithBuild (extractBaseVersion (str "1.0.36.349"))
                         (Some (inl (str "349")))
  = str "1.0.36.349".
Proof.
  apply (X7_extract_then_formatVersionWithBuild (str "1.0.36.349") (str "349"));
    [reflexivity | reflexivity | discriminate].
Defined.

(** ** The sorted list *)

Section InsertionSorted.
Context {A : Type} (f : A -> A -> number) (R : A -> A -> Prop) (P : A -> Prop).
Hypothesis after : forall x y,
  P x -> P y -> (0 <? num_sgn (f x y)) = true -> R y x.
Hypothesis before : forall x y,
  P x -> P y -> (0 <? num_sgn (f x y)) = false -> R x y.
Hypothesis trans : forall x y z, P x -> P y -> P z -> R x y -> R y z -> R x z.

Lemma sortInsert_sorted x l :
  P x -> Forall P l -> StronglySorted R l -> StronglySorted R (sortInsert f x l).
Proof.
  intros Hx Hl Hs. induction Hs as [|y l Hs IH Hy]; simpl.
  - repeat constructor.
  - apply Forall_cons in Hl as [HPy Hl].
    destruct (0 <? num_sgn (f x y)) eqn:E.
    + constructor; [by apply IH|].
      rewrite sortInsert_perm. constructor; [by apply after | done].
    + constructor; [by constructor|].
      constructor; [by apply before|].
      rewrite Forall_forall in Hy, Hl |- *. intros z Hz.
      apply (trans x y z); auto.
Qed.

Lemma arraySort_sorted l : Forall P l -> StronglySorted R (arraySort f l).
Proof.
  induction 1 as [|x l Hx Hl IH]; simpl; [constructor|].
  apply sortInsert_sorted; [done| |done].
  by rewrite arraySort_perm.
Qed.
End InsertionSorted.

(** X8: [sortVersions] returns the strings it was given, each as often
    as it occurs, and, when none of them has an unparsable segment, in
    order: ascending, every string is not greater under
    [compareVersions] than all that follow it; descending, not smaller. *)
Theorem X8_sortVersions_sorted_permutation
    (versions : list jsstring) (descending : bool) :
  Forall (fun v => allSegmentsParse v = true) versions ->
  sortVersions versions descending ≡ₚ versions
  /\ StronglySorted
       (fun x y => if descending then compareVersions y x <= 0
                   else compareVersions x y <= 0)
       (sortVersions versions descending).
Proof.
  intros Hall. split; [apply arraySort_perm|].
  unfold sortVersions.
  apply (arraySort_sorted _ _ (fun v => allSegmentsParse v = true));
    [| | |done].
  - intros x y Hx Hy H%Z.ltb_lt.
    destruct (sortComparator_sgn x y Hx Hy) as [Ea Ed].
    destruct descending.
    + rewrite Ed in H. rewrite compareVersions_antisym. lia.
    + rewrite Ea in H. rewrite compareVersions_antisym. lia.
  - intros x y Hx Hy H%Z.ltb_ge.
    destruct (sortComparator_sgn x y Hx Hy) as [Ea Ed].
    destruct descending; [by rewrite <- Ed | by rewrite <- Ea].
  - intros x y z Hx Hy Hz. destruct descending.
    + intros H1 H2. by apply (compareVersions_trans z y x).
    + by apply compareVersions_trans.
Qed.

Lemma X8_sortVersions_sorted_permutation_witness :
  sortVersions [str "1.0.9"; str "1.10"; str "1.0.10"] false
    ≡ₚ [str "1.0.9"; str "1.10"; str "1.0.10"]
  /\ StronglySorted (fun x y => compareVersions x y <= 0)
       (sortVersions [str "1.0.9"; str "1.10"; str "1.0.10"] false).
Proof.
  apply (X8_sortVersions_sorted_permutation
           [str "1.0.9"; str "1.10"; str "1.0.10"] false).
  repeat constructor.
Defined.

(** X9: which of several equally recent strings [getLatestVersion]
    returns may depend on the order of the list, but nothing else does:
    on two lists with the same strings, none with an unparsable segment,
    it returns strings that compare equal. *)
Theorem X9_getLatestVersion_order_independent
    (versions versions' : list jsstring) (v v' : jsstring) :
  Forall (fun u => allSegmentsParse u = true) versions ->
  versions ≡ₚ versions' ->
  getLatestVersion versions = Some v ->
  getLatestVersion versions' = Some v' ->
  compareVersions v v' = 0.
Proof.
  intros Hall Hperm Hv Hv'.
  assert (Hall' : Forall (fun u => allSegmentsParse u = true) versions')
    by by rewrite <- Hperm.
  assert (Hmax : forall l w,
    Forall (fun u => allSegmentsParse u = true) l ->
    getLatestVersion l = Some w ->
    w ∈ l /\ forall u, u ∈ l -> compareVersions u w <= 0).
  { intros l w Hl Hw. destruct l as [|x l]; [done|].
    destruct (sortVersions_head_max (x :: l) Hl) as (h & Hh & Hin & Hm);
      [done|].
    unfold getLatestVersion in Hw. rewrite Hh in Hw. by injection Hw as <-. }
  destruct (Hmax _ _ Hall Hv) as [Hin Hm].
  destruct (Hmax _ _ Hall' Hv') as [Hin' Hm'].
  assert (compareVersions v v' <= 0) by (apply Hm'; by rewrite <- Hperm).
  assert (compareVersions v' v <= 0) by (apply Hm; by rewrite Hperm).
  pose proof (compareVersions_antisym v v'). lia.
Qed.

Lemma X9_getLatestVersion_order_independent_witness :
  compareVersions (str "1.10") (str "1.10.0") = 0.
Proof.
  apply (X9_getLatestVersion_order_independent
           [str "1.10"; str "1.9"; str "1.10.0"]
           [str "1.10.0"; str "1.10"; str "1.9"]).
  - repeat constructor.
  - rewrite (Permutation_cons_append [_; _] (str "1.10.0")). reflexivity.
  - reflexivity.
  - reflexivity.
Defined.

(** ** Store URLs and the identifiers in them *)

Lemma digitPrefix_all s : forallb isDigit s = true -> digitPrefix s = s.
Proof.
  induction s as [|d s IH]; [done|]. simpl.
  intros [-> Hs]%andb_true_iff. by rewrite IH.
Qed.

Lemma untilAmpersand_all s : 38%N ∉ s -> untilAmpersand s = s.
Proof.
  induction s as [|c s IH]; [done|]. simpl.
  rewrite not_elem_of_cons. intros [Hc Hs].
  destruct (N.eqb_spec c 38); [done|]. by rewrite IH.
Qed.

Lemma matchIosId_synthesized id :
  id <> [] -> forallb isDigit id = true ->
  matchIosId (str "https://apps.apple.com/app/id" ++ id) = Some id.
Proof.
  intros Hne Hdigits.
  let prefix := eval vm_compute in (str "https://apps.apple.com/app/id") in
  change (str "https://apps.apple.com/app/id") with prefix.
  simpl. rewrite (digitPrefix_all id Hdigits). by destruct id.
Qed.

Lemma matchAndroidId_synthesized name :
  name <> [] -> 38%N ∉ name ->
  matchAndroidId (str "https://play.google.com/store/apps/details?id=" ++ name)
  = Some name.
Proof.
  intros Hne Hamp.
  let prefix :=
    eval vm_compute in (str "https://play.google.com/store/apps/details?id=") in
  change (str "https://play.google.com/store/apps/details?id=") with prefix.
  simpl. rewrite (untilAmpersand_all name Hamp). by destruct name.
Qed.

(** Every code unit of a string is a full stop or lies in a segment. *)
Lemma elem_of_split c s :
  c ∈ s -> c = dot \/ exists seg, seg ∈ split s /\ c ∈ seg.
Proof.
  induction s as [|d s IH]; [by intros ?%elem_of_nil|].
  intros [->|Hc]%elem_of_cons; simpl.
  - destruct (N.eqb_spec d dot) as [->|_]; [by left|]. right.
    destruct (split s) as [|seg segs]; eexists; split; left.
  - destruct (IH Hc) as [->|(seg & Hseg & Hin)]; [by left|]. right.
    destruct (N.eqb_spec d dot) as [->|_].
    + exists seg. split; [by right | done].
    + destruct (split s) as [|seg0 segs]; [by apply elem_of_nil in Hseg|].
      apply elem_of_cons in Hseg as [->|Hseg].
      * exists (d :: seg0). split; [left | by right].
      * exists seg. split; [by right | done].
Qed.

Lemma isValidAndroidPackageName_no_ampersand name :
  isValidAndroidPackageName name = true -> name <> [] /\ 38%N ∉ name.
Proof.
  unfold isValidAndroidPackageName.
  intros [Hlen Hall]%andb_true_iff. split; [by destruct name|].
  intros [E|(seg & Hseg & Hin)]%elem_of_split; [done|].
  rewrite forallb_forall in Hall.
  apply list_elem_of_In, Hall in Hseg.
  destruct seg as [|c seg]; [done|]. simpl in Hseg.
  apply andb_true_iff in Hseg as [Hc Hrest].
  apply elem_of_cons in Hin as [<-|Hin]; [done|].
  rewrite forallb_forall in Hrest.
  by apply list_elem_of_In, Hrest in Hin.
Qed.

(** X10: the URL that [getStoreUrl] synthesizes for [ios] from a valid
    App Store id (no override being set) gives that id back under
    [extractAppIdFromUrl]. *)
Theorem X10_ios_store_url_round_trip (config : AppStoreConfig) (id : jsstring) :
  iosAppStoreId config = Some id ->
  opt_str_truthy (iosStoreUrl config) = false ->
  isValidIosAppStoreId id = true ->
  exists url, getStoreUrl ios config = Some url
              /\ extractAppIdFromUrl url ios = Some id.
Proof.
  intros Hid Hurl Hvalid. unfold getStoreUrl, getIosStoreUrl.
  rewrite Hurl, Hid.
  unfold isValidIosAppStoreId in Hvalid.
  apply andb_true_iff in Hvalid as [[Hdigits Hlen%Nat.leb_le]%andb_true_iff _].
  assert (Hne : id <> []) by (destruct id; [simpl in Hlen; lia | done]).
  replace (opt_str_truthy (Some id)) with true by by destruct id.
  eexists. split; [reflexivity|].
  by apply matchIosId_synthesized.
Qed.

Lemma X10_ios_store_url_round_trip_witness :
  exists url,
    getStoreUrl ios {| iosAppStoreId := Some (str "123456789");
                       androidPackageName := None;
                       iosStoreUrl := None; androidStoreUrl := None |}
    = Some url
    /\ extractAppIdFromUrl url ios = Some (str "123456789").
Proof.
  apply (X10_ios_store_url_round_trip
           {| iosAppStoreId := Some (str "123456789");
              androidPackageName := None;
              iosStoreUrl := None; androidStoreUrl := None |}
           (str "123456789")); reflexivity.
Defined.

(** X11: the URL that [getStoreUrl] synthesizes for [android] from a
    valid package name (no override being set) gives that name back
    under [extractAppIdFromUrl]. *)
Theorem X11_android_store_url_round_trip
    (config : AppStoreConfig) (name : jsstring) :
  androidPackageName config = Some name ->
  opt_str_truthy (androidStoreUrl config) = false ->
  isValidAndroidPackageName name = true ->
  exists url, getStoreUrl android config = Some url
              /\ extractAppIdFromUrl url android = Some name.
Proof.
  intros Hname Hurl [Hne Hamp]%isValidAndroidPackageName_no_ampersand.
  unfold getStoreUrl, getAndroidStoreUrl. rewrite Hurl, Hname.
  replace (opt_str_truthy (Some name)) with true by by destruct name.
  eexists. split; [reflexivity|].
  by apply matchAndroidId_synthesized.
Qed.

Lemma X11_android_store_url_round_trip_witness :
  exists url,
    getStoreUrl android {| iosAppStoreId := None;
                           androidPackageName := Some (str "com.example.app");
                           iosStoreUrl := None; androidStoreUrl := None |}
    = Some url
    /\ extractAppIdFromUrl url android = Some (str "com.example.app").
Proof.
  apply (X11_android_store_url_round_trip
           {| iosAppStoreId := None;
              androidPackageName := Some (str "com.example.app");
              iosStoreUrl := None; androidStoreUrl := None |}
           (str "com.example.app")); reflexivity.
Defined.

(** ** What the decision says, and what the engine passes on *)

(** X12: whatever the providers, a result that [shouldShowUpdatePrompt]
    resolves to is coherent: without skip reason it prompts and an
    update is available; with [remind_later] or [too_soon] it does not
    prompt although one is available; with [no_update] none is; with
    [web_platform] or [error] it does not prompt. *)
Theorem X12_result_reason_matches_update {World Exn : Type}
    (dataProvider : IVersionDataProvider World Exn)
    (storageProvider : IStorageProvider World Exn)
    (options : VersionChecker.Options World Exn)
    (Date_now : World -> number * World)
    (w w' : World) (res : VersionCheckResult) (calls : list Call) :
  VersionChecker.shouldShowUpdatePrompt
    dataProvider storageProvider options Date_now w = (inr res, w', calls) ->
  reasonMatchesUpdate res.
Proof.
  revert w res w' calls.
  change (resolvesWith reasonMatchesUpdate
            (VersionChecker.shouldShowUpdatePrompt
               dataProvider storageProvider options Date_now)).
  unfold VersionChecker.shouldShowUpdatePrompt.
  apply resolvesWith_bind; intros p. destruct (_ && _).
  { apply resolvesWith_bind; intros vi. by apply resolvesWith_ret. }
  apply resolvesWith_tryCatch;
    [|intros e; apply resolvesWith_bind; intros vi; by apply resolvesWith_ret].
  unfold VersionChecker.tryBlock.
  apply resolvesWith_bind; intros vi.
  destruct (updateAvailable vi) eqn:Eup; cbn [negb];
    [|by apply resolvesWith_ret].
  apply resolvesWith_bind; intros remind.
  apply resolvesWith_bind; intros [|]; [by apply resolvesWith_ret|].
  apply resolvesWith_bind; intros last.
  apply resolvesWith_bind; intros [|]; [by apply resolvesWith_ret|].
  apply resolvesWith_bind; intros [|]; [by apply resolvesWith_ret|].
  unfold VersionChecker.recordPrompt.
  do 3 (apply resolvesWith_bind; intros ?).
  by apply resolvesWith_ret.
Qed.

Lemma X12_result_reason_matches_update_witness :
  reasonMatchesUpdate
    (VersionChecker.skipped
       {| currentVersion := str "1.0.439"; latestVersion := Some (str "1.0.49");
          updateAvailable := false; storeUrl := None; platform := ios |}
       no_update).
Proof.
  apply (X12_result_reason_matches_update
           (World := MemoryStorage * Z) (Exn := Empty_set)
           (Fixtures.fixedDataProvider (str "1.0.439") (Some (str "1.0.49"))
              Fixtures.noConfig None)
           InMemoryStorageProvider
           (Fixtures.fixedOptions ios true VersionChecker.MIN_CHECK_INTERVAL
              VersionChecker.REMIND_LATER_DURATION)
           (Fixtures.clockBeside Fixtures.ticking)
           (emptyStorage, 1700000000000) (emptyStorage, 1700000000000) _
           [CallGetCurrentVersion; CallGetLatestVersion ios;
            CallGetAppStoreConfig]).
  reflexivity.
Defined.

Section EveryCallFacts.
Context {World Exn : Type} (Q : Call -> Prop).

Lemma everyCall_ret {A} (a : A) : everyCall Q (ret a : @Async World Exn A).
Proof. intros w r w' calls [= _ _ <-]. constructor. Qed.

(** The continuation need only behave on the values the first part can
    resolve to. *)
Lemma everyCall_bind {A B} (post : A -> Prop)
    (m : @Async World Exn A) (k : A -> @Async World Exn B) :
  everyCall Q m ->
  (forall w a w' calls, m w = (inr a, w', calls) -> post a) ->
  (forall a, post a -> everyCall Q (k a)) ->
  everyCall Q (bind m k).
Proof.
  intros Hm Hpost Hk w r w' calls. unfold bind.
  destruct (m w) as [[[e|a] w1] calls1] eqn:Em.
  - intros [= _ _ <-]. by apply (Hm w (inl e) w1).
  - destruct (k a w1) as [[r2 w2] calls2] eqn:Ek. intros [= _ _ <-].
    apply Forall_app. split; [by apply (Hm w (inr a) w1)|].
    apply (Hk a (Hpost _ _ _ _ Em) w1 r2 w2). exact Ek.
Qed.

Lemma everyCall_bind_any {A B}
    (m : @Async World Exn A) (k : A -> @Async World Exn B) :
  everyCall Q m -> (forall a, everyCall Q (k a)) -> everyCall Q (bind m k).
Proof.
  intros Hm Hk. apply (everyCall_bind (fun _ => True)); auto.
Qed.

Lemma everyCall_invoke {A} (c : Call) (op : @Op World Exn A) :
  Q c -> everyCall Q (invoke c op).
Proof.
  intros Hc w r w' calls. unfold invoke. destruct (op w).
  intros [= _ _ <-]. by repeat constructor.
Qed.

Lemma everyCall_host {A} (op : @Op World Exn A) : everyCall Q (host op).
Proof.
  intros w r w' calls. unfold host. destruct (op w).
  intros [= _ _ <-]. constructor.
Qed.

Lemma everyCall_tryCatch {A} (body : @Async World Exn A) handler :
  everyCall Q body -> (forall e, everyCall Q (handler e)) ->
  everyCall Q (tryCatch body handler).
Proof.
  intros Hb Hh w r w' calls. unfold tryCatch.
  destruct (body w) as [[[e|a] w1] calls1] eqn:Eb.
  - destruct (handler e w1) as [[r2 w2] calls2] eqn:Eh. intros [= _ _ <-].
    apply Forall_app. split; [by apply (Hb w (inl e) w1)|].
    by apply (Hh e w1 r2 w2).
  - intros [= _ _ <-]. by apply (Hb w (inr a) w1).
Qed.
End EveryCallFacts.

(** X13: the engine never hands the mandatory-update hook of the data
    source a missing or empty latest version: in every evaluation of
    [shouldShowUpdatePrompt], however it ends, each call of the hook
    passes a non-empty string. *)
Theorem X13_mandatory_hook_gets_latest_version {World Exn : Type}
    (dataProvider : IVersionDataProvider World Exn)
    (storageProvider : IStorageProvider World Exn)
    (options : VersionChecker.Options World Exn)
    (Date_now : World -> number * World)
    (w w' : World) (r : Exn + VersionCheckResult) (calls : list Call) :
  VersionChecker.shouldShowUpdatePrompt
    dataProvider storageProvider options Date_now w = (r, w', calls) ->
  Forall passesLatestVersion calls.
Proof.
  revert w r w' calls.
  change (everyCall passesLatestVersion
            (VersionChecker.shouldShowUpdatePrompt
               dataProvider storageProvider options Date_now)).
  assert (Hinfo : everyCall (World := World) (Exn := Exn) passesLatestVersion
                    (VersionChecker.getVersionInfo dataProvider options)).
  { unfold VersionChecker.getVersionInfo.
    apply everyCall_bind_any; [apply everyCall_host | intros p].
    do 3 (apply everyCall_bind_any; [by apply everyCall_invoke | intros ?]).
    apply everyCall_ret. }
  assert (Hnow : everyCall (World := World) (Exn := Exn) passesLatestVersion
                   (VersionChecker.dateNow Date_now)).
  { intros w r w' calls. unfold VersionChecker.dateNow.
    destruct (Date_now w). intros [= _ _ <-]. constructor. }
  unfold VersionChecker.shouldShowUpdatePrompt.
  apply everyCall_bind_any; [apply everyCall_host | intros p].
  destruct (_ && _).
  { apply everyCall_bind_any; [done | intros; apply everyCall_ret]. }
  apply everyCall_tryCatch;
    [|intros e; apply everyCall_bind_any; [done | intros; apply everyCall_ret]].
  unfold VersionChecker.tryBlock.
  apply (everyCall_bind _
           (fun vi => updateAvailable vi = true ->
                      exists c l, latestVersion vi = Some (c :: l)));
    [done| |].
  { intros w vi w' calls ->%getVersionInfo_resolved.
    destruct (latestVersion vi) as [[|c l]|]; [done| |done]. eauto. }
  intros vi Hlatest.
  destruct (updateAvailable vi); cbn [negb]; [|apply everyCall_ret].
  destruct Hlatest as (c & l & Hl); [done|].
  apply everyCall_bind_any; [by apply everyCall_invoke | intros remind].
  apply everyCall_bind_any.
  { unfold VersionChecker.inRemindLaterPeriod.
    destruct remind as [t|]; [destruct (num_truthy t)|];
      try apply everyCall_ret.
    apply everyCall_bind_any; [done | intros; apply everyCall_ret]. }
  intros [|]; [apply everyCall_ret|].
  apply everyCall_bind_any; [by apply everyCall_invoke | intros last].
  apply everyCall_bind_any.
  { unfold VersionChecker.checkedTooRecently.
    destruct last as [t|]; [destruct (num_truthy t)|];
      try apply everyCall_ret.
    apply everyCall_bind_any; [done | intros; apply everyCall_ret]. }
  intros [|]; [apply everyCall_ret|].
  apply everyCall_bind_any.
  { unfold VersionChecker.alreadyShown.
    destruct (getLastShownVersion storageProvider); [|apply everyCall_ret].
    apply everyCall_bind_any; [by apply everyCall_invoke | intros shown].
    destruct (bool_decide _); [|apply everyCall_ret].
    destruct (isUpdateMandatory dataProvider); [|apply everyCall_ret].
    apply everyCall_bind_any; [|intros; apply everyCall_ret].
    apply everyCall_invoke. by rewrite Hl. }
  intros [|]; [apply everyCall_ret|].
  unfold VersionChecker.recordPrompt.
  apply everyCall_bind_any; [done | intros now].
  apply everyCall_bind_any; [by apply everyCall_invoke | intros ?].
  apply everyCall_bind_any; [|intros; apply everyCall_ret].
  destruct (setLastShownVersion storageProvider), (latestVersion vi) as [l'|];
    try apply everyCall_ret.
  destruct (str_truthy l'); [by apply everyCall_invoke | apply everyCall_ret].
Qed.

(** ** Scenarios on the in-memory store *)

(** As [evaluate], keeping sums of numbers and defaulted counts too. *)
Ltac evaluate_store :=
  cbv -[compareVersions Z.ltb getStoreUrl num_lt num_sub num_truthy
        num_add orZero].

(** X14: after [setRemindMeLater()] the in-memory store holds
    [remindLaterTime = now + remindLaterDuration] and a dismiss count
    raised by one, and a check made while the clock reads less than
    that time is declined with [remind_later], an available update
    notwithstanding, after reading nothing but the reminder. *)
Theorem X14_remind_me_later_suppresses {Rest Exn : Type}
    (clock : Rest -> number * Rest)
    (current latest : jsstring) (config : AppStoreConfig)
    (mandatory : option (jsstring -> jsstring -> bool))
    (p : Platform) (skipWeb : bool) (minInterval remindDuration : number)
    (st : MemoryStorage) (c c1 c2 : Rest) (now now2 : number) :
  let dataProvider : IVersionDataProvider (MemoryStorage * Rest) Exn :=
    Fixtures.fixedDataProvider current (Some latest) config mandatory in
  let options := Fixtures.fixedOptions p skipWeb minInterval remindDuration in
  let Date_now := Fixtures.clockBeside clock in
  let vi :=
    {| currentVersion := current; latestVersion := Some latest;
       updateAvailable := true; storeUrl := getStoreUrl p config;
       platform := p |} in
  let remindTime := num_add now remindDuration in
  let st' :=
    {| lastCheckTime := lastCheckTime st;
       remindLaterTime := Some remindTime;
       dismissCount := Some (num_add (orZero (dismissCount st)) (Num 1));
       lastShownVersion := lastShownVersion st |} in
  latest <> [] -> compareVersions current latest < 0 ->
  ~ (p = web /\ skipWeb = true) ->
  clock c = (now, c1) -> num_truthy remindTime = true ->
  clock c1 = (now2, c2) -> num_lt now2 remindTime = true ->
  VersionChecker.setRemindMeLater InMemoryStorageProvider options Date_now (st, c)
  = (inr tt, (st', c1),
     [CallSetRemindLaterTime remindTime; CallIncrementDismissCount])
  /\ VersionChecker.shouldShowUpdatePrompt
       dataProvider InMemoryStorageProvider options Date_now (st', c1)
     = (inr (VersionChecker.skipped vi remind_later), (st', c2),
        [CallGetCurrentVersion; CallGetLatestVersion p; CallGetAppStoreConfig;
         CallGetRemindLaterTime]).
Proof.
  intros dataProvider options Date_now vi remindTime st'
    Hlatest Hnewer Hplatform Hclock Htruthy Hclock2 Hbefore.
  assert (Hskip : bool_decide (p = web) && skipWeb = false).
  { destruct p, skipWeb; try done. destruct Hplatform; done. }
  assert (Hlt : (compareVersions current latest <? 0) = true)
    by by apply Z.ltb_lt.
  destruct latest as [|ch latest]; [done|]. destruct st as [lc rl dc ls].
  subst dataProvider options Date_now vi st' remindTime. split.
  - evaluate_store. rewrite Hclock. reflexivity.
  - destruct p, skipWeb; try discriminate Hskip;
      repeat (progress (evaluate_store;
                        rewrite ?Hlt, ?Htruthy, ?Hclock2, ?Hbefore));
      reflexivity.
Qed.

Lemma X14_remind_me_later_suppresses_witness :
  let options : VersionChecker.Options (MemoryStorage * Z) Empty_set :=
    Fixtures.fixedOptions ios true
      VersionChecker.MIN_CHECK_INTERVAL VersionChecker.REMIND_LATER_DURATION in
  let st' :=
    {| lastCheckTime := None;
       remindLaterTime := Some (Num 1700086400000);
       dismissCount := Some (Num 1);
       lastShownVersion := None |} in
  VersionChecker.setRemindMeLater InMemoryStorageProvider options
    (Fixtures.clockBeside Fixtures.ticking) (emptyStorage, 1700000000000)
  = (inr tt, (st', 1700000000001),
     [CallSetRemindLaterTime (Num 1700086400000); CallIncrementDismissCount])
  /\ VersionChecker.shouldShowUpdatePrompt
       (Fixtures.fixedDataProvider (str "1.0.49") (Some (str "1.1.0"))
          Fixtures.noConfig None)
       InMemoryStorageProvider options
       (Fixtures.clockBeside Fixtures.ticking) (st', 1700000000001)
     = (inr (VersionChecker.skipped
               {| currentVersion := str "1.0.49";
                  latestVersion := Some (str "1.1.0");
                  updateAvailable := true; storeUrl := None;
                  platform := ios |}
               remind_later),
        (st', 1700000000002),
        [CallGetCurrentVersion; CallGetLatestVersion ios;
         CallGetAppStoreConfig; CallGetRemindLaterTime]).
Proof.
  intros options st'.
  apply (X14_remind_me_later_suppresses (Exn := Empty_set) Fixtures.ticking
           (str "1.0.49") (str "1.1.0") Fixtures.noConfig None ios true
           VersionChecker.MIN_CHECK_INTERVAL VersionChecker.REMIND_LATER_DURATION
           emptyStorage 1700000000000 1700000000001 1700000000002
           (Num 1700000000000) (Num 1700000000001));
    try reflexivity.
  - discriminate.
  - intros [? _]. discriminate.
Defined.

(** X15: the latest version has been shown before and nothing else
    throttles.  Then the check declines with [remind_later], writing
    nothing, unless the data source has a mandatory-update hook and the
    hook says the update is mandatory: then it prompts again and stores
    the time of the check. *)
Theorem X15_mandatory_update_shown_again {Rest Exn : Type}
    (clock : Rest -> number * Rest)
    (current latest : jsstring) (config : AppStoreConfig)
    (mandatory : option (jsstring -> jsstring -> bool))
    (p : Platform) (skipWeb : bool) (minInterval remindDuration : number)
    (count : option number) (c c1 : Rest) (now : number) :
  let dataProvider : IVersionDataProvider (MemoryStorage * Rest) Exn :=
    Fixtures.fixedDataProvider current (Some latest) config mandatory in
  let options := Fixtures.fixedOptions p skipWeb minInterval remindDuration in
  let check :=
    VersionChecker.shouldShowUpdatePrompt dataProvider InMemoryStorageProvider
      options (Fixtures.clockBeside clock) in
  let vi :=
    {| currentVersion := current; latestVersion := Some latest;
       updateAvailable := true; storeUrl := getStoreUrl p config;
       platform := p |} in
  let st :=
    {| lastCheckTime := None; remindLaterTime := None;
       dismissCount := count; lastShownVersion := Some latest |} in
  let reads :=
    [CallGetCurrentVersion; CallGetLatestVersion p; CallGetAppStoreConfig;
     CallGetRemindLaterTime; CallGetLastCheckTime; CallGetLastShownVersion] in
  latest <> [] -> compareVersions current latest < 0 ->
  ~ (p = web /\ skipWeb = true) ->
  clock c = (now, c1) ->
  check (st, c)
  = match mandatory with
    | None => (inr (VersionChecker.skipped vi remind_later), (st, c), reads)
    | Some hook =>
        if hook current latest
        then (inr {| shouldShowPrompt := true; versionInfo := vi;
                     skipReason := None |},
              ({| lastCheckTime := Some now; remindLaterTime := None;
                  dismissCount := count; lastShownVersion := Some latest |},
               c1),
              reads ++ [CallIsUpdateMandatory current latest;
                        CallSetLastCheckTime now;
                        CallSetLastShownVersion latest])
        else (inr (VersionChecker.skipped vi remind_later), (st, c),
              reads ++ [CallIsUpdateMandatory current latest])
    end.
Proof.
  intros dataProvider options check vi st reads
    Hlatest Hnewer Hplatform Hclock.
  assert (Hskip : bool_decide (p = web) && skipWeb = false).
  { destruct p, skipWeb; try done. destruct Hplatform; done. }
  assert (Hlt : (compareVersions current latest <? 0) = true)
    by by apply Z.ltb_lt.
  assert (Hsame : bool_decide (Some latest = Some latest) = true)
    by by apply bool_decide_eq_true_2.
  destruct latest as [|ch latest]; [done|].
  subst dataProvider options check vi st reads.
  unfold VersionChecker.shouldShowUpdatePrompt, VersionChecker.tryBlock,
    VersionChecker.alreadyShown.
  assert (Hios : bool_decide (ios = web) = false) by done.
  assert (Handroid : bool_decide (android = web) = false) by done.
  assert (Hweb : bool_decide (web = web) = true) by done.
  cbv -[bool_decide] in Hios, Handroid, Hweb, Hsame.
  destruct mandatory as [hook|]; [destruct (hook current (ch :: latest)) eqn:Eh|];
    destruct p, skipWeb; try discriminate Hskip;
    repeat (progress (cbv -[compareVersions Z.ltb getStoreUrl num_lt num_sub
                            num_truthy bool_decide];
                      rewrite ?Hlt, ?Hsame, ?Eh, ?Hclock,
                        ?Hios, ?Handroid, ?Hweb));
    reflexivity.
Qed.

Lemma X15_mandatory_update_shown_again_witness :
  let st :=
    {| lastCheckTime := None; remindLaterTime := None;
       dismissCount := None; lastShownVersion := Some (str "1.1.0") |} in
  let calls :=
    [CallGetCurrentVersion; CallGetLatestVersion ios; CallGetAppStoreConfig;
     CallGetRemindLaterTime; CallGetLastCheckTime; CallGetLastShownVersion;
     CallIsUpdateMandatory (str "1.0.49") (str "1.1.0");
     CallSetLastCheckTime (Num 1700000000000);
     CallSetLastShownVersion (str "1.1.0")] in
  VersionChecker.shouldShowUpdatePrompt
    (Fixtures.fixedDataProvider (Exn := Empty_set)
       (str "1.0.49") (Some (str "1.1.0")) Fixtures.noConfig
       (Some (fun _ _ => true)))
    InMemoryStorageProvider
    (Fixtures.fixedOptions ios true
       VersionChecker.MIN_CHECK_INTERVAL VersionChecker.REMIND_LATER_DURATION)
    (Fixtures.clockBeside Fixtures.ticking) (st, 1700000000000)
  = (inr {| shouldShowPrompt := true;
            versionInfo :=
              {| currentVersion := str "1.0.49";
                 latestVersion := Some (str "1.1.0");
                 updateAvailable := true; storeUrl := None; platform := ios |};
            skipReason := None |},
     ({| lastCheckTime := Some (Num 1700000000000); remindLaterTime := None;
         dismissCount := None; lastShownVersion := Some (str "1.1.0") |},
      1700000000001),
     calls)
  /\ Forall passesLatestVersion calls.
Proof.
  intros st calls.
  assert (Hrun := X15_mandatory_update_shown_again (Exn := Empty_set)
           Fixtures.ticking (str "1.0.49") (str "1.1.0") Fixtures.noConfig
           (Some (fun _ _ => true)) ios true
           VersionChecker.MIN_CHECK_INTERVAL VersionChecker.REMIND_LATER_DURATION
           None 1700000000000 1700000000001 (Num 1700000000000)).
  split.
  - apply Hrun; [discriminate | reflexivity | | reflexivity].
    intros [? _]. discriminate.
  - repeat constructor; discriminate.
Defined.

Lemma X13_mandatory_hook_gets_latest_version_witness :
  Forall passesLatestVersion
    [CallGetCurrentVersion; CallGetLatestVersion ios; CallGetAppStoreConfig;
     CallGetRemindLaterTime; CallGetLastCheckTime; CallGetLastShownVersion;
     CallIsUpdateMandatory (str "1.0.49") (str "1.1.0");
     CallSetLastCheckTime (Num 1700000000000);
     CallSetLastShownVersion (str "1.1.0")].
Proof.
  apply (X13_mandatory_hook_gets_latest_version
           (World := MemoryStorage * Z) (Exn := Empty_set)
           (Fixtures.fixedDataProvider
              (str "1.0.49") (Some (str "1.1.0")) Fixtures.noConfig
              (Some (fun _ _ => true)))
           InMemoryStorageProvider
           (Fixtures.fixedOptions ios true VersionChecker.MIN_CHECK_INTERVAL
              VersionChecker.REMIND_LATER_DURATION)
           (Fixtures.clockBeside Fixtures.ticking)
           ({| lastCheckTime := None; remindLaterTime := None;
               dismissCount := None; lastShownVersion := Some (str "1.1.0") |},
            1700000000000)
           ({| lastCheckTime := Some (Num 1700000000000);
               remindLaterTime := None; dismissCount := None;
               lastShownVersion := Some (str "1.1.0") |}, 1700000000001)
           (inr {| shouldShowPrompt := true;
                   versionInfo :=
                     {| currentVersion := str "1.0.49";
                        latestVersion := Some (str "1.1.0");
                        updateAvailable := true; storeUrl := None;
                        platform := ios |};
                   skipReason := None |})).
  reflexivity.
Defined.

(** X16: [resetVersionCheckData()] leaves the in-memory store empty
    whatever it held (reminder, last check, last shown version and
    dismiss count), so that the next check of an available update
    prompts. *)
Theorem X16_reset_then_prompt {Rest Exn : Type}
    (clock : Rest -> number * Rest)
    (current latest : jsstring) (config : AppStoreConfig)
    (mandatory : option (jsstring -> jsstring -> bool))
    (p : Platform) (skipWeb : bool) (minInterval remindDuration : number)
    (st : MemoryStorage) (c c1 : Rest) (now : number) :
  let dataProvider : IVersionDataProvider (MemoryStorage * Rest) Exn :=
    Fixtures.fixedDataProvider current (Some latest) config mandatory in
  let options := Fixtures.fixedOptions p skipWeb minInterval remindDuration in
  let vi :=
    {| currentVersion := current; latestVersion := Some latest;
       updateAvailable := true; storeUrl := getStoreUrl p config;
       platform := p |} in
  latest <> [] -> compareVersions current latest < 0 ->
  ~ (p = web /\ skipWeb = true) ->
  clock c = (now, c1) ->
  VersionChecker.resetVersionCheckData
    (World := MemoryStorage * Rest) (Exn := Exn) InMemoryStorageProvider (st, c)
  = (inr tt, (emptyStorage, c),
     [CallClearRemindLaterTime; CallSetLastCheckTime (Num 0); CallClearAll])
  /\ VersionChecker.shouldShowUpdatePrompt
       dataProvider InMemoryStorageProvider options
       (Fixtures.clockBeside clock) (emptyStorage, c)
     = (inr {| shouldShowPrompt := true; versionInfo := vi;
               skipReason := None |},
        ({| lastCheckTime := Some now; remindLaterTime := None;
            dismissCount := None; lastShownVersion := Some latest |}, c1),
        [CallGetCurrentVersion; CallGetLatestVersion p; CallGetAppStoreConfig;
         CallGetRemindLaterTime; CallGetLastCheckTime; CallGetLastShownVersion;
         CallSetLastCheckTime now; CallSetLastShownVersion latest]).
Proof.
  intros dataProvider options vi Hlatest Hnewer Hplatform Hclock.
  assert (Hskip : bool_decide (p = web) && skipWeb = false).
  { destruct p, skipWeb; try done. destruct Hplatform; done. }
  assert (Hlt : (compareVersions current latest <? 0) = true)
    by by apply Z.ltb_lt.
  destruct latest as [|ch latest]; [done|].
  subst dataProvider options vi. split; [reflexivity|].
  destruct p, skipWeb; try discriminate Hskip;
    repeat (progress (evaluate; rewrite ?Hlt, ?Hclock)); reflexivity.
Qed.

Lemma X16_reset_then_prompt_witness :
  VersionChecker.resetVersionCheckData
    (World := MemoryStorage * Z) (Exn := Empty_set) InMemoryStorageProvider
    ({| lastCheckTime := Some (Num 1699999999000);
        remindLaterTime := Some (Num 1700086400000);
        dismissCount := Some (Num 3);
        lastShownVersion := Some (str "1.1.0") |}, 1700000000000)
  = (inr tt, (emptyStorage, 1700000000000),
     [CallClearRemindLaterTime; CallSetLastCheckTime (Num 0); CallClearAll]).
Proof.
  apply (X16_reset_then_prompt (Exn := Empty_set) Fixtures.ticking
           (str "1.0.49") (str "1.1.0") Fixtures.noConfig None ios true
           VersionChecker.MIN_CHECK_INTERVAL VersionChecker.REMIND_LATER_DURATION
           _ 1700000000000 1700000000001 (Num 1700000000000));
    try reflexivity.
  - discriminate.
  - intros [? _]. discriminate.
Defined.

(** ** The lifecycle *)

(** X17: calling [initialize()] again after it has run changes nothing:
    for all hooks of the two providers, [initialize()] followed by
    [initialize()] leaves the world and the [initialized] field as one
    [initialize()] does (and fails as it does when a hook throws). *)
Theorem X17_initialize_idempotent {World Exn : Type}
    (dataInitialize storageInitialize : option (@Op World Exn unit))
    (initialized : bool) (w : World) :
  bind (VersionChecker.initialize dataInitialize storageInitialize initialized)
       (VersionChecker.initialize dataInitialize storageInitialize) w
  = VersionChecker.initialize dataInitialize storageInitialize initialized w.
Proof.
  unfold VersionChecker.initialize, VersionChecker.runIfPresent, bind, host, ret.
  destruct initialized; [reflexivity|].
  destruct dataInitialize as [f|]; [destruct (f w) as [[e|[]] w1]|];
    try reflexivity;
    (destruct storageInitialize as [g|];
       [destruct (g _) as [[e|[]] w2]|]; reflexivity).
Qed.

(** ** Numbers printed and read back *)

Lemma decimalValue_from acc ds :
  fold_left (fun a c => 10 * a + digitValue c) ds acc
  = acc * 10 ^ Z.of_nat (length ds) + decimalValue ds.
Proof.
  unfold decimalValue. revert acc.
  induction ds as [|d ds IH]; intros acc; [simpl; lia|].
  cbn [fold_left length]. rewrite IH, (IH (10 * 0 + digitValue d)).
  rewrite Nat2Z.inj_succ, Z.pow_succ_r by lia. lia.
Qed.

Lemma decimalValue_app a b :
  decimalValue (a ++ b)
  = decimalValue a * 10 ^ Z.of_nat (length b) + decimalValue b.
Proof.
  unfold decimalValue at 1. rewrite fold_left_app.
  fold (decimalValue a). apply decimalValue_from.
Qed.

Lemma decimalValue_zeros n : decimalValue (replicate n 48%N) = 0.
Proof.
  induction n as [|n IH]; [done|].
  change (replicate (S n) 48%N) with ([48%N] ++ replicate n 48%N).
  rewrite decimalValue_app, IH. reflexivity.
Qed.

Lemma digit_code z :
  0 <= z < 10 ->
  isDigit (Z.to_N (48 + z)) = true /\ digitValue (Z.to_N (48 + z)) = z.
Proof.
  intros Hz. unfold isDigit, digitValue. rewrite Z2N.id by lia. split; [|lia].
  apply andb_true_iff. split; apply N.leb_le; lia.
Qed.

Lemma digitsOf_spec fuel z acc :
  0 <= z < 10 ^ Z.of_nat fuel -> forallb isDigit acc = true ->
  forallb isDigit (digitsOf fuel z acc) = true
  /\ (0 < fuel -> digitsOf fuel z acc <> [])%nat
  /\ decimalValue (digitsOf fuel z acc)
     = z * 10 ^ Z.of_nat (length acc) + decimalValue acc.
Proof.
  revert z acc. induction fuel as [|fuel IH]; intros z acc Hz Hacc.
  - simpl in *. split; [done|]. split; [lia|]. replace z with 0 by lia. lia.
  - rewrite Nat2Z.inj_succ, Z.pow_succ_r in Hz by lia.
    pose proof (Z.mod_pos_bound z 10 ltac:(lia)) as Hmod.
    destruct (digit_code (z mod 10) Hmod) as [Hd Hv].
    cbn [digitsOf].
    assert (Hhead : decimalValue (Z.to_N (48 + z mod 10) :: acc)
                    = z mod 10 * 10 ^ Z.of_nat (length acc) + decimalValue acc).
    { change (Z.to_N (48 + z mod 10) :: acc)
        with ([Z.to_N (48 + z mod 10)] ++ acc).
      rewrite decimalValue_app. unfold decimalValue at 1. simpl fold_left.
      rewrite Hv. lia. }
    destruct (Z.ltb_spec z 10) as [Hsmall|Hbig].
    + split; [simpl; by rewrite Hd, Hacc|]. split; [done|].
      rewrite Hhead, Z.mod_small by lia. reflexivity.
    + destruct (IH (z / 10) (Z.to_N (48 + z mod 10) :: acc)) as (H1 & H2 & H3).
      * split; [apply Z.div_pos; lia|]. apply Z.div_lt_upper_bound; lia.
      * simpl. by rewrite Hd, Hacc.
      * split; [done|]. split.
        -- intros _. destruct fuel; [|apply H2; lia].
           simpl in Hz. lia.
        -- rewrite H3, Hhead. cbn [length].
           rewrite Nat2Z.inj_succ, Z.pow_succ_r by lia.
           rewrite (Z.div_mod z 10) at 3 by lia. lia.
Qed.

Lemma decimalDigits_spec z :
  0 <= z ->
  forallb isDigit (decimalDigits z) = true
  /\ decimalDigits z <> []
  /\ decimalValue (decimalDigits z) = z.
Proof.
  intros Hz. unfold decimalDigits.
  destruct (digitsOf_spec (S (Z.to_nat (Z.log2 z))) z []) as (H1 & H2 & H3);
    [|done|].
  - split; [done|]. rewrite Nat2Z.inj_succ, Z2Nat.id by apply Z.log2_nonneg.
    destruct (Z.eq_dec z 0) as [->|Hnz]; [simpl; lia|].
    apply Z.lt_le_trans with (2 ^ Z.succ (Z.log2 z)).
    + apply Z.log2_spec. lia.
    + apply Z.pow_le_mono_l. lia.
  - split; [done|]. split; [apply H2; lia|].
    rewrite H3. simpl. unfold decimalValue. simpl. lia.
Qed.

(** Below [2^53] every integer is a double of its own. *)
Lemma Number_of_Z_eq_small y z :
  Number_of_Z y = Num z -> Z.abs z < 2 ^ 53 -> y = z.
Proof.
  unfold Number_of_Z.
  destruct (Z.ltb_spec (Z.abs y) (2 ^ 53)) as [|Hbig]; [congruence|].
  set (m := Z.abs y) in *. set (sh := Z.log2 m - 52).
  set (q := Z.shiftr m sh).
  assert (Hm : 0 < m) by (pose proof (Z.pow_pos_nonneg 2 53); lia).
  assert (Hlog : 53 <= Z.log2 m) by (apply Z.log2_le_pow2; [lia | exact Hbig]).
  assert (Hsh : 1 <= sh) by (unfold sh; lia).
  assert (Hq : 2 ^ 52 <= q).
  { unfold q. rewrite Z.shiftr_div_pow2 by lia.
    apply Z.div_le_lower_bound; [apply Z.pow_pos_nonneg; lia|].
    rewrite <- Z.pow_add_r by lia.
    replace (sh + 52) with (Z.log2 m) by (unfold sh; lia).
    apply Z.log2_spec. lia. }
  match goal with |- context [Z.shiftl ?q' sh] => set (q1 := q') end.
  assert (Hq1 : 2 ^ 52 <= q1) by (unfold q1; destruct (_ || _); lia).
  assert (Hv : 2 ^ 53 <= Z.shiftl q1 sh).
  { rewrite Z.shiftl_mul_pow2 by lia.
    change (2 ^ 53) with (2 ^ 52 * 2 ^ 1).
    apply Z.mul_le_mono_nonneg; try lia.
    apply Z.pow_le_mono_r; lia. }
  destruct (2 ^ 1024 <=? Z.shiftl q1 sh); [by destruct (0 <? y)|].
  intros [= <-] Habs. exfalso.
  rewrite Z.abs_mul in Habs.
  assert (Hs : Z.abs (Z.sgn y) = 1) by (unfold m in Hm; destruct y; simpl in *; lia).
  rewrite Hs in Habs. lia.
Qed.

Lemma foldl_closerTo_in x c cs : foldl (closerTo x) c cs ∈ c :: cs.
Proof.
  revert c. induction cs as [|c' cs IH]; intros c; [left|].
  cbn [foldl]. specialize (IH (closerTo x c c')).
  assert (Hc : closerTo x c c' = c \/ closerTo x c c' = c').
  { unfold closerTo. destruct (_ <? _); [by right|].
    destruct (_ && _); [by right | by left]. }
  apply elem_of_cons in IH as [->|IH].
  - destruct Hc as [->| ->]; [left | right; left].
  - by do 2 right.
Qed.

Lemma shortestCandidates_spec x d k s e :
  (s, e) ∈ shortestCandidates x d k ->
  0 <= e /\ 10 ^ (k - 1) <= s < 10 ^ k /\ Number_of_Z (s * 10 ^ e) = Num x.
Proof.
  unfold shortestCandidates. intros [_ H]%list_elem_of_In%filter_In.
  apply andb_true_iff in H as [H Hround].
  apply andb_true_iff in H as [H Hhi].
  apply andb_true_iff in H as [He Hlo].
  apply bool_decide_eq_true in Hround.
  apply Z.leb_le in He, Hlo. apply Z.ltb_lt in Hhi. auto.
Qed.

Lemma shortestFrom_spec x d k tries s e k' :
  shortestFrom x d k tries = Some (s, e, k') ->
  k <= k' /\ 0 <= e /\ 10 ^ (k' - 1) <= s < 10 ^ k'
  /\ Number_of_Z (s * 10 ^ e) = Num x.
Proof.
  revert k. induction tries as [|tries IH]; intros k; [done|].
  cbn [shortestFrom].
  destruct (shortestCandidates x d k) as [|c cs] eqn:Ec.
  - intros (? & ? & ? & ?)%IH. repeat split; auto; lia.
  - intros [= Hfold <-]. split; [lia|].
    apply (shortestCandidates_spec x d k). rewrite Ec, <- Hfold.
    apply foldl_closerTo_in.
Qed.

(** A safe integer is printed as a run of digits that reads back as
    itself. *)
Lemma positiveToString_safe x :
  0 < x < 2 ^ 53 ->
  forallb isDigit (positiveToString x) = true
  /\ positiveToString x <> []
  /\ decimalValue (positiveToString x) = x.
Proof.
  intros Hx. unfold positiveToString.
  destruct (shortestFrom x _ 1 17) as [[[s e] k]|] eqn:Es;
    [|apply decimalDigits_spec; lia].
  apply shortestFrom_spec in Es as (Hk & He & Hs & Hround).
  apply Number_of_Z_eq_small in Hround; [|lia].
  assert (Hs0 : 0 < 10 ^ (k - 1)) by (apply Z.pow_pos_nonneg; lia).
  destruct (decimalDigits_spec s ltac:(lia)) as (Hd1 & Hd2 & Hd3).
  destruct (Z.leb_spec (k + e) 21) as [_|Hn].
  - split; [|split].
    + rewrite forallb_app, Hd1. simpl.
      clear. induction (Z.to_nat e); simpl; auto.
    + by destruct (decimalDigits s).
    + rewrite decimalValue_app, decimalValue_zeros, Hd3, length_replicate.
      rewrite Z2Nat.id by lia. lia.
  - exfalso.
    assert (10 ^ 21 <= 10 ^ (k - 1) * 10 ^ e).
    { rewrite <- Z.pow_add_r by lia. apply Z.pow_le_mono_r; lia. }
    assert (0 < 10 ^ e) by (apply Z.pow_pos_nonneg; lia).
    assert (10 ^ (k - 1) * 10 ^ e <= s * 10 ^ e) by nia.
    assert (2 ^ 53 < 10 ^ 21) by (vm_compute; reflexivity).
    lia.
Qed.

Lemma isDigit_not_dot c : isDigit c = true -> c <> dot.
Proof.
  unfold isDigit, dot. intros [H%N.leb_le _]%andb_true_iff. lia.
Qed.

Lemma digits_noDot s : forallb isDigit s = true -> noDot s.
Proof.
  unfold noDot. rewrite forallb_forall. intros H Hin%list_elem_of_In.
  by apply H, isDigit_not_dot in Hin.
Qed.

(** A safe integer printed by [toString] has no full stop in it and is
    read back by [parseInt]. *)
Lemma numberToString_safe z :
  Z.abs z < 2 ^ 53 ->
  numberToString (Num z) <> []
  /\ noDot (numberToString (Num z))
  /\ parseInt (numberToString (Num z)) = Num z
  /\ (0 <= z -> forallb isDigit (numberToString (Num z)) = true).
Proof.
  intros Hz. destruct z as [|p|p].
  - split; [done|]. split; [by apply digits_noDot|]. done.
  - cbn [numberToString].
    destruct (positiveToString_safe (Z.pos p)) as (Hd & Hne & Hv); [lia|].
    split; [done|]. split; [by apply digits_noDot|]. split; [|done].
    rewrite parseInt_digits, Hv; [|by destruct (positiveToString _)|done].
    apply Number_of_Z_small. lia.
  - cbn [numberToString].
    destruct (positiveToString_safe (Z.pos p)) as (Hd & Hne & Hv); [lia|].
    split; [done|]. split; [|split; [|lia]].
    + pose proof (digits_noDot _ Hd) as Hnd. unfold noDot in *.
      rewrite not_elem_of_cons. split; [done | exact Hnd].
    + unfold parseInt. cbn [trimStart].
      change (isStrWhiteSpaceChar 45) with false. cbn [N.eqb Pos.eqb].
      rewrite (digitPrefix_all _ Hd).
      destruct (positiveToString (Z.pos p)) as [|d ds] eqn:E; [done|].
      rewrite Hv. apply Number_of_Z_small. lia.
Qed.

Lemma isSafeInteger_toString x :
  isSafeInteger x = true ->
  numberToString x <> [] /\ noDot (numberToString x)
  /\ parseInt (numberToString x) = x.
Proof.
  destruct x as [|z| |]; try done. intros H%Z.ltb_lt.
  destruct (numberToString_safe z H) as (? & ? & ? & _). done.
Qed.

(** An array of safe integers joined with full stops splits and parses
    back into itself. *)
Lemma versionParts_joinNumbers parts :
  parts <> [] -> Forall (fun x => isSafeInteger x = true) parts ->
  versionParts (joinNumbers parts) = parts.
Proof.
  intros Hne Hall. unfold joinNumbers.
  rewrite versionParts_join.
  - rewrite <- list_fmap_compose.
    induction Hall as [|x l Hx Hl IH]; [done|]. cbn [fmap list_fmap].
    f_equal.
    + by apply isSafeInteger_toString.
    + destruct l; [done|]. by apply IH.
  - by destruct parts.
  - rewrite Forall_fmap. eapply Forall_impl; [exact Hall|].
    intros x Hx. by apply isSafeInteger_toString.
Qed.

Lemma isSafeInteger_not_NaN x : isSafeInteger x = true -> isNaN x = false.
Proof. by destruct x. Qed.

(** X18: [parseVersion] undoes [formatVersion] on safe integers: the
    three components come back as given, zero and negative numbers
    included, and the build number is there exactly when one was
    given. *)
Theorem X18_parseVersion_formatVersion
    (major' minor' patch' : number) (build' : option number) :
  isSafeInteger major' = true -> isSafeInteger minor' = true ->
  isSafeInteger patch' = true ->
  from_option (fun b => isSafeInteger b = true) True build' ->
  parseVersion (formatVersion major' minor' patch' build')
  = {| major := major'; minor := minor'; patch := patch'; build := build' |}.
Proof.
  intros Ha Hb Hc Hd. unfold parseVersion, formatVersion.
  fold (versionParts
          (joinNumbers
             (match build' with
              | Some b => [major'; minor'; patch'] ++ [b]
              | None => [major'; minor'; patch']
              end))).
  rewrite versionParts_joinNumbers.
  - destruct build' as [b|]; cbn [app lookup list_lookup];
      rewrite !orZero_Some by (by apply isSafeInteger_not_NaN); reflexivity.
  - by destruct build'.
  - destruct build' as [b|]; cbn [app]; repeat constructor; assumption.
Qed.

Lemma X18_parseVersion_formatVersion_witness :
  parseVersion (formatVersion (Num 1) (Num 0) (Num 36) (Some (Num 349)))
  = {| major := Num 1; minor := Num 0; patch := Num 36;
       build := Some (Num 349) |}.
Proof.
  apply (X18_parseVersion_formatVersion
           (Num 1) (Num 0) (Num 36) (Some (Num 349)));
    reflexivity.
Defined.

Lemma split_joinNumbers parts :
  parts <> [] -> Forall (fun x => isSafeInteger x = true) parts ->
  split (joinNumbers parts) = map numberToString parts.
Proof.
  intros Hne Hall. unfold joinNumbers. apply split_join.
  - by destruct parts.
  - rewrite Forall_fmap. eapply Forall_impl; [exact Hall|].
    intros x Hx. by apply isSafeInteger_toString.
Qed.

(** A safe integer prints as a non-empty run of digits exactly when it
    is not negative. *)
Lemma numberToString_digits x :
  isSafeInteger x = true ->
  str_truthy (numberToString x) && forallb isDigit (numberToString x)
  = isSafeNatural x.
Proof.
  destruct x as [|z| |]; try done. intros H%Z.ltb_lt.
  destruct (numberToString_safe z H) as (Hne & _ & _ & Hd).
  destruct z as [| p | p].
  - reflexivity.
  - rewrite Hd by lia. cbn [isSafeNatural].
    destruct (numberToString _); [done|].
    symmetry. apply andb_true_iff. split; [apply Z.leb_le | apply Z.ltb_lt]; lia.
  - cbn [numberToString isSafeNatural forallb str_truthy].
    change (isDigit 45) with false. reflexivity.
Qed.

(** X19: a version made by [formatVersion] from safe integers passes
    [isValidVersion] exactly when none of the numbers is negative. *)
Theorem X19_formatVersion_valid_iff_natural
    (major' minor' patch' : number) (build' : option number) :
  isSafeInteger major' = true -> isSafeInteger minor' = true ->
  isSafeInteger patch' = true ->
  from_option (fun b => isSafeInteger b = true) True build' ->
  isValidVersion (formatVersion major' minor' patch' build')
  = isSafeNatural major' && isSafeNatural minor' && isSafeNatural patch'
    && from_option isSafeNatural true build'.
Proof.
  intros Ha Hb Hc Hd. unfold isValidVersion, formatVersion.
  rewrite split_joinNumbers.
  - destruct build' as [b|]; cbn [app map length forallb Nat.eqb orb from_option];
      rewrite !numberToString_digits by assumption;
      rewrite ?andb_true_r, ?andb_assoc; reflexivity.
  - by destruct build'.
  - destruct build' as [b|]; cbn [app]; repeat constructor; assumption.
Qed.

Lemma X19_formatVersion_valid_iff_natural_witness :
  isValidVersion (formatVersion (Num 1) (Num (-2)) (Num 3) None) = false.
Proof.
  rewrite (X19_formatVersion_valid_iff_natural (Num 1) (Num (-2)) (Num 3) None);
    reflexivity.
Defined.

(** ** Normalised versions *)

Lemma padZeros_length n parts : (n <= length (padZeros n parts))%nat.
Proof. unfold padZeros. rewrite length_app, length_replicate. lia. Qed.

Lemma padZeros_safe n parts :
  Forall (fun x => isSafeInteger x = true) parts ->
  Forall (fun x => isSafeInteger x = true) (padZeros n parts).
Proof.
  intros H. unfold padZeros. apply Forall_app. split; [done|].
  by apply Forall_replicate.
Qed.

Lemma filter_safe parts :
  Forall (fun x => isSafeInteger x = true) parts ->
  List.filter (fun num => negb (isNaNumber num)) parts = parts.
Proof.
  induction 1 as [|x l Hx Hl IH]; [done|]. simpl.
  destruct x; try done. simpl. by rewrite IH.
Qed.

(** Zeros appended to the parts of a version do not change how it
    compares. *)
Lemma compareVersions_parts_zeros a b k other :
  versionParts a = versionParts b ++ replicate k (Num 0) ->
  compareVersions a other = compareVersions b other.
Proof.
  intros Hparts.
  set (n := Nat.max (length (versionParts a))
              (Nat.max (length (versionParts b)) (length (versionParts other)))).
  rewrite (compareVersions_upTo a other n), (compareVersions_upTo b other n)
    by lia.
  rewrite Hparts. clear. induction k as [|k IH]; [by rewrite app_nil_r|].
  rewrite <- IH. cbn [replicate]. rewrite replicate_cons_app, app_assoc.
  apply compareUpTo_snoc_zero.
Qed.

(** X20: on a version whose numeric parts are safe integers,
    [normalizeVersion] gives a string that reads back as those parts
    padded with zeros to the requested length, and normalising a second
    time changes nothing. *)
Theorem X20_normalizeVersion_idempotent
    (version : jsstring) (padToLength : nat) :
  Forall (fun x => isSafeInteger x = true) (numericParts version) ->
  ((0 < padToLength)%nat ->
   versionParts (normalizeVersion version padToLength)
   = padZeros padToLength (numericParts version))
  /\ normalizeVersion (normalizeVersion version padToLength) padToLength
     = normalizeVersion version padToLength.
Proof.
  intros Hsafe.
  change (normalizeVersion version padToLength)
    with (joinNumbers (padZeros padToLength (numericParts version))).
  pose proof (padZeros_length padToLength (numericParts version)) as Hlen.
  pose proof (padZeros_safe padToLength _ Hsafe) as Hall.
  generalize dependent (padZeros padToLength (numericParts version)).
  intros parts Hlen Hall. split.
  - intros Hpos. apply versionParts_joinNumbers; [|done].
    destruct parts; simpl in *; [lia | done].
  - destruct (decide (parts = [])) as [->|Hne].
    + simpl in Hlen. assert (padToLength = 0%nat) as -> by lia. reflexivity.
    + change (normalizeVersion (joinNumbers parts) padToLength)
        with (joinNumbers
                (padZeros padToLength (numericParts (joinNumbers parts)))).
      unfold numericParts.
      rewrite versionParts_joinNumbers by done.
      rewrite filter_safe by done. unfold padZeros.
      replace (padToLength - length parts)%nat with 0%nat by lia.
      cbn [replicate]. by rewrite app_nil_r.
Qed.

Lemma X20_normalizeVersion_idempotent_witness :
  versionParts (normalizeVersion (str "1.x.7") 3) = [Num 1; Num 7; Num 0]
  /\ normalizeVersion (normalizeVersion (str "1.x.7") 3) 3
     = normalizeVersion (str "1.x.7") 3.
Proof.
  destruct (X20_normalizeVersion_idempotent (str "1.x.7") 3) as [Hparts Hidem].
  - repeat constructor.
  - split; [apply Hparts; lia | exact Hidem].
Defined.

(** X21: where every segment of a version parses to a safe integer,
    [normalizeVersion] gives a string that compares like the version
    itself, on either side of [compareVersions]. *)
Theorem X21_normalizeVersion_compares_alike
    (version other : jsstring) (padToLength : nat) :
  Forall (fun x => isSafeInteger x = true) (versionParts version) ->
  compareVersions (normalizeVersion version padToLength) other
  = compareVersions version other
  /\ compareVersions other (normalizeVersion version padToLength)
     = compareVersions other version.
Proof.
  intros Hsafe.
  assert (Hleft : forall w,
             compareVersions (normalizeVersion version padToLength) w
             = compareVersions version w).
  { intros w.
    apply (compareVersions_parts_zeros _ _
             (padToLength - length (versionParts version))).
    change (normalizeVersion version padToLength)
      with (joinNumbers (padZeros padToLength (numericParts version))).
    unfold numericParts. rewrite filter_safe by done.
    rewrite versionParts_joinNumbers; [done| |by apply padZeros_safe].
    unfold versionParts, padZeros.
    pose proof (split_not_nil version). by destruct (split version). }
  split; [apply Hleft|].
  rewrite (compareVersions_antisym other), Hleft.
  symmetry. apply compareVersions_antisym.
Qed.

Lemma X21_normalizeVersion_compares_alike_witness :
  compareVersions (normalizeVersion (str "01.2") 3) (str "1.2.1")
  = compareVersions (str "01.2") (str "1.2.1")
  /\ compareVersions (str "1.2.1") (normalizeVersion (str "01.2") 3)
     = compareVersions (str "1.2.1") (str "01.2").
Proof.
  apply (X21_normalizeVersion_compares_alike (str "01.2") (str "1.2.1") 3).
  repeat constructor.
Defined.

(** ** Display versions *)

(** X22: the display string with its [v] prefix is not a version for
    the rest of the library: whatever the input, its first segment does
    not parse, so [getMajorVersion] reads zero from it, and
    [isValidVersion] rejects it. *)
Theorem X22_formatDisplayVersion_prefix_unparsable (version : jsstring) :
  getMajorVersion (formatDisplayVersion version true) = Num 0
  /\ isValidVersion (formatDisplayVersion version true) = false.
Proof.
  unfold formatDisplayVersion, getMajorVersion, parseVersion, isValidVersion.
  change (str "v" ++ ?s) with (118%N :: s).
  generalize (normalizeVersion version 3). intros normalized.
  cbn [split]. change (N.eqb 118 dot) with false. cbv iota.
  pose proof (split_not_nil normalized) as Hne.
  destruct (split normalized) as [|seg segs]; [done|].
  split; [reflexivity|].
  cbn [forallb]. change (isDigit 118) with false.
  cbn [str_truthy andb]. apply andb_false_r.
Qed.

(** X23: a numeric build number given to [formatVersionWithBuild] on a
    three-segment version is what [parseVersion] reads as the build,
    the other three components being those of the version. *)
Theorem X23_formatVersionWithBuild_number
    (platformVersion : jsstring) (buildNumber : number) :
  length (split platformVersion) = 3%nat ->
  isSafeInteger buildNumber = true ->
  let version :=
    formatVersionWithBuild platformVersion (Some (inr buildNumber)) in
  parseVersion version
  = {| major := getMajorVersion platformVersion;
       minor := getMinorVersion platformVersion;
       patch := getPatchVersion platformVersion;
       build := Some buildNumber |}
  /\ extractBaseVersion version = platformVersion
  /\ extractBuildNumber version = Some (numberToString buildNumber).
Proof.
  intros Hlen Hsafe version.
  destruct (isSafeInteger_toString _ Hsafe) as (_ & Hdot & Hparse).
  assert (Hsplit : split version
                   = split platformVersion ++ [numberToString buildNumber]).
  { unfold version, formatVersionWithBuild.
    by rewrite split_app_dot, (split_noDot _ Hdot). }
  unfold getMajorVersion, getMinorVersion, getPatchVersion, parseVersion,
    extractBaseVersion, extractBuildNumber.
  rewrite Hsplit. clear Hsplit version.
  pose proof (join_split platformVersion) as Hjoin.
  destruct (split platformVersion) as [|s1 [|s2 [|s3 [|s4 segs]]]];
    try discriminate Hlen.
  cbn -[join parseInt]. by rewrite Hparse.
Qed.

Lemma X23_formatVersionWithBuild_number_witness :
  parseVersion (formatVersionWithBuild (str "1.0.36") (Some (inr (Num 349))))
  = {| major := Num 1; minor := Num 0; patch := Num 36;
       build := Some (Num 349) |}.
Proof.
  apply (X23_formatVersionWithBuild_number (str "1.0.36") (Num 349));
    reflexivity.
Defined.

(** ** The engine's own [isUpdateMandatory()] *)

(** X24: [isUpdateMandatory()] resolves to [true] only on the word of
    the data source's hook: the hook exists, [getVersionInfo()] resolved
    with a latest version that is not empty, and the hook, called last
    with the current and that latest version, resolved to [true].
    Whether the latest version is newer than the current one plays no
    part. *)
Theorem X24_isUpdateMandatory_true_from_hook {World Exn : Type}
    (dataProvider : IVersionDataProvider World Exn)
    (options : VersionChecker.Options World Exn)
    (w w' : World) (calls : list Call) :
  VersionChecker.isUpdateMandatoryMethod dataProvider options w
  = (inr true, w', calls) ->
  exists hook vi w1 calls1 latest,
    isUpdateMandatory dataProvider = Some hook
    /\ VersionChecker.getVersionInfo dataProvider options w
       = (inr vi, w1, calls1)
    /\ latestVersion vi = Some latest /\ latest <> []
    /\ hook (currentVersion vi) latest w1 = (inr true, w')
    /\ calls = calls1 ++ [CallIsUpdateMandatory (currentVersion vi) latest].
Proof.
  unfold VersionChecker.isUpdateMandatoryMethod.
  destruct (isUpdateMandatory dataProvider) as [hook|]; [|done].
  intros (vi & w1 & calls1 & calls2 & Hinfo & Hhook & ->)%bind_resolved.
  destruct (latestVersion vi) as [[|c latest]|] eqn:Hlatest; try done.
  unfold invoke in Hhook.
  destruct (hook (currentVersion vi) (c :: latest) w1) as [r w2] eqn:Ehook.
  injection Hhook as -> -> <-.
  by exists hook, vi, w1, calls1, (c :: latest).
Qed.

Lemma X24_isUpdateMandatory_true_from_hook_witness :
  exists vi,
    updateAvailable vi = false
    /\ VersionChecker.getVersionInfo (World := unit) (Exn := Empty_set)
         (Fixtures.fixedDataProvider
            (str "2.0.0") (Some (str "1.9.0")) Fixtures.noConfig
            (Some (fun _ _ => true)))
         (Fixtures.fixedOptions ios true VersionChecker.MIN_CHECK_INTERVAL
            VersionChecker.REMIND_LATER_DURATION) tt
       = (inr vi, tt,
          [CallGetCurrentVersion; CallGetLatestVersion ios;
           CallGetAppStoreConfig]).
Proof.
  destruct (X24_isUpdateMandatory_true_from_hook
              (World := unit) (Exn := Empty_set)
              (Fixtures.fixedDataProvider
                 (str "2.0.0") (Some (str "1.9.0")) Fixtures.noConfig
                 (Some (fun _ _ => true)))
              (Fixtures.fixedOptions ios true VersionChecker.MIN_CHECK_INTERVAL
                 VersionChecker.REMIND_LATER_DURATION)
              tt tt
              [CallGetCurrentVersion; CallGetLatestVersion ios;
               CallGetAppStoreConfig;
               CallIsUpdateMandatory (str "2.0.0") (str "1.9.0")]
              eq_refl)
    as (hook & vi & w1 & calls1 & latest & _ & Hinfo & _).
  exists vi. split.
  - cbv in Hinfo. by injection Hinfo as <- _ _.
  - destruct w1. cbv in Hinfo. injection Hinfo as <- <-. reflexivity.
Defined.
